(** * basic-template: reactive component base class, offline cache worker
      and page controller, embedded from the TypeScript / JavaScript sources.

    Layout: the language-level helpers come first ([Text], [Num], [JS]),
    then one module per source unit ([Markup] and [BaseComponent] for
    src/components/BaseComponent.ts, [ExampleComponent], [Gen1] / [Gen2]
    for the two earlier generations of the base class, [SW] for
    public/scripts/sw.js, [IndexController] for
    public/scripts/indexController.js), then the theorems. *)

From Stdlib Require Import ZArith List String Ascii Bool Lia DecimalString.
From Stdlib Require Import Floats.SpecFloat.
From stdpp Require Import base option list gmap strings.

Local Open Scope string_scope.

(* ===================================================================== *)
(** ** Character classes and string helpers *)
(* ===================================================================== *)

Module Text.

Definition code (c : ascii) : N := N_of_ascii c.

Definition between (lo hi : N) (c : ascii) : bool :=
  (lo <=? code c)%N && (code c <=? hi)%N.

(** [\d] *)
Definition is_digit (c : ascii) : bool := between 48 57 c.

(** [\w], that is [A-Za-z0-9_] *)
Definition is_word (c : ascii) : bool :=
  between 65 90 c || between 97 122 c || is_digit c || (code c =? 95)%N.

(** [\s] and the white space of [trim] and of numeric literals, on the
    one-byte characters: TAB, LF, VT, FF, CR and SPACE. *)
Definition is_space (c : ascii) : bool :=
  between 9 13 c || (code c =? 32)%N.

Definition is_alpha (c : ascii) : bool :=
  between 65 90 c || between 97 122 c.

Definition lower (c : ascii) : ascii :=
  if between 65 90 c then ascii_of_N (code c + 32) else c.

Fixpoint lowercase (s : string) : string :=
  match s with
  | EmptyString => EmptyString
  | String c r => String (lower c) (lowercase r)
  end.

Fixpoint rev_onto (s acc : string) : string :=
  match s with
  | EmptyString => acc
  | String c r => rev_onto r (String c acc)
  end.

Definition srev (s : string) : string := rev_onto s EmptyString.

(** [strip_prefix p s] is [Some r] when [s = p ++ r]. *)
Fixpoint strip_prefix (p s : string) : option string :=
  match p with
  | EmptyString => Some s
  | String a p' =>
      match s with
      | EmptyString => None
      | String b s' => if Ascii.eqb a b then strip_prefix p' s' else None
      end
  end.

(** [String.prototype.startsWith] *)
Definition startsWith (s p : string) : bool :=
  match strip_prefix p s with Some _ => true | None => false end.

Definition endsWith (s p : string) : bool := startsWith (srev s) (srev p).

(** The longest prefix of characters satisfying [f], and the rest. *)
Fixpoint span (f : ascii -> bool) (s : string) : string * string :=
  match s with
  | EmptyString => (EmptyString, EmptyString)
  | String c r =>
      if f c then let '(a, b) := span f r in (String c a, b)
      else (EmptyString, s)
  end.

Definition drop_while (f : ascii -> bool) (s : string) : string :=
  snd (span f s).

(** [String.prototype.trim] *)
Definition trim (s : string) : string :=
  srev (drop_while is_space (srev (drop_while is_space s))).

(** [String.prototype.split] with a one-character separator: the pieces
    between the separators, in order; never the empty list. *)
Fixpoint split_go (sep : ascii) (s cur : string) : list string :=
  match s with
  | EmptyString => [srev cur]
  | String c r =>
      if Ascii.eqb c sep then srev cur :: split_go sep r EmptyString
      else split_go sep r (String c cur)
  end.

Definition split (sep : ascii) (s : string) : list string :=
  split_go sep s EmptyString.

Definition is_empty (s : string) : bool :=
  match s with EmptyString => true | _ => false end.

(** Every character of [s] satisfies [f]. *)
Fixpoint all_chars (f : ascii -> bool) (s : string) : bool :=
  match s with
  | EmptyString => true
  | String c r => f c && all_chars f r
  end.

End Text.

(* ===================================================================== *)
(** ** Numbers: IEEE 754 binary64, as the language has them *)
(* ===================================================================== *)

Module Num.
Import Text.

Definition prec : Z := 53.
Definition emax : Z := 1024.

Definition number : Type := spec_float.

Definition NaN : number := S754_nan.
Definition zero : number := S754_zero false.

(** The number nearest to the integer [z] (ties to even). *)
Definition of_Z (z : Z) : number := binary_normalize prec emax z 0 false.

Definition add (x y : number) : number := SFadd prec emax x y.

(** The number nearest to [(-1)^neg * m * 10^e], for [0 <= m]. *)
Definition of_decimal (neg : bool) (m e : Z) : number :=
  match m with
  | Z0 => S754_zero neg
  | _ =>
      if (0 <=? e)%Z
      then binary_normalize prec emax
             (cond_Zopp neg (m * 10 ^ e)%Z) 0 neg
      else
        let '(q, e', l) :=
          SFdiv_core_binary prec emax m 0 (10 ^ (- e))%Z 0 in
        binary_round_aux prec emax neg q e' l
  end.

(** *** StringToNumber (ECMA-262, 7.1.4.1.1) *)

Definition digit_val (c : ascii) : Z :=
  if is_digit c then Z.of_N (code c) - 48
  else if between 97 102 c then Z.of_N (code c) - 87
  else if between 65 70 c then Z.of_N (code c) - 55
  else 0.

Fixpoint digits_val (base : Z) (s : string) (acc : Z) : Z :=
  match s with
  | EmptyString => acc
  | String c r => digits_val base r (acc * base + digit_val c)
  end.

Definition is_hex (c : ascii) : bool :=
  is_digit c || between 97 102 c || between 65 70 c.
Definition is_oct (c : ascii) : bool := between 48 55 c.
Definition is_bin (c : ascii) : bool := between 48 49 c.

(** A whole string of at least one digit of the given class. *)
Definition all_digits (f : ascii -> bool) (s : string) : bool :=
  negb (is_empty s) && is_empty (drop_while f s).

(** NonDecimalIntegerLiteral: 0x, 0o, 0b prefixes, no sign. *)
Definition non_decimal (s : string) : option Z :=
  match s with
  | String "0" (String p r) =>
      match lower p with
      | "x"%char => if all_digits is_hex r then Some (digits_val 16 r 0) else None
      | "o"%char => if all_digits is_oct r then Some (digits_val 8 r 0) else None
      | "b"%char => if all_digits is_bin r then Some (digits_val 2 r 0) else None
      | _ => None
      end
  | _ => None
  end.

(** An optional sign. *)
Definition take_sign (s : string) : bool * string :=
  match s with
  | String "-" r => (true, r)
  | String "+" r => (false, r)
  | _ => (false, s)
  end.

(** ExponentPart, which must end the literal; no exponent counts as 0. *)
Definition exponent_part (s : string) : option Z :=
  match s with
  | EmptyString => Some 0%Z
  | String c r =>
      if Ascii.eqb (lower c) "e" then
        let '(neg, d) := take_sign r in
        if all_digits is_digit d
        then Some (cond_Zopp neg (digits_val 10 d 0))
        else None
      else None
  end.

(** StrUnsignedDecimalLiteral without Infinity: mantissa and power of
    ten. *)
Definition unsigned_decimal (s : string) : option (Z * Z) :=
  let '(ip, r1) := span is_digit s in
  let '(fp, r2) :=
    match r1 with
    | String "." r => span is_digit r
    | _ => (EmptyString, r1)
    end in
  if is_empty ip && is_empty fp then None
  else
    match exponent_part r2 with
    | Some e =>
        Some (digits_val 10 (ip ++ fp) 0, (e - Z.of_nat (String.length fp))%Z)
    | None => None
    end.

Definition StringToNumber (str : string) : number :=
  let s := trim str in
  if is_empty s then zero
  else
    match non_decimal s with
    | Some z => of_Z z
    | None =>
        let '(neg, u) := take_sign s in
        if String.eqb u "Infinity" then S754_infinity neg
        else
          match unsigned_decimal u with
          | Some (m, e) => of_decimal neg m e
          | None => NaN
          end
    end.

(** *** Number::toString (ECMA-262, 6.1.6.1.20), radix 10 *)

Definition dec_of_Z (z : Z) : string :=
  NilZero.string_of_uint (N.to_uint (Z.to_N z)).

Definition digits10 (z : Z) : Z := Z.of_nat (String.length (dec_of_Z z)).

Fixpoint zeros (n : nat) : string :=
  match n with O => EmptyString | S n' => String "0" (zeros n') end.

Fixpoint take (n : nat) (s : string) : string :=
  match n, s with
  | S n', String c r => String c (take n' r)
  | _, _ => EmptyString
  end.

Fixpoint drop (n : nat) (s : string) : string :=
  match n, s with
  | S n', String _ r => drop n' r
  | _, _ => s
  end.

(** For the positive rational [p / q]: the integer [n] with
    [10^(n-1) <= p/q < 10^n]. *)
Definition magnitude10 (p q : Z) : Z :=
  if (q <=? p)%Z then digits10 (p / q)
  else (1 - digits10 ((q - 1) / p))%Z.

Definition same_number (x y : number) : bool :=
  match SFcompare x y with Some Eq => true | _ => false end.

(** The [k]-digit decimals next to [x = p / q]: the one below (or equal),
    the one above, and which of them read back as [x]; the result is the
    chosen digits [s] and the exponent [n] of the standard, when some
    [k]-digit decimal reads back as [x]. *)
Definition shortest_at (x : number) (p q n0 k : Z) : option (Z * Z) :=
  let sh := (k - n0)%Z in
  let a := if (0 <=? sh)%Z then (p * 10 ^ sh)%Z else p in
  let b := if (0 <=? sh)%Z then q else (q * 10 ^ (- sh))%Z in
  let lo := (a / b)%Z in
  let r := (a - lo * b)%Z in
  let hi := (lo + 1)%Z in
  let lo_ok := same_number (of_decimal false lo (- sh)) x in
  let hi_ok := same_number (of_decimal false hi (- sh)) x in
  let norm s :=
    if (s =? 10 ^ k)%Z then (10 ^ (k - 1), n0 + 1)%Z else (s, n0) in
  match lo_ok, hi_ok with
  | true, true =>
      match (2 * r ?= b)%Z with
      | Lt => Some (norm lo)
      | Gt => Some (norm hi)
      | Eq => Some (norm (if Z.even lo then lo else hi))
      end
  | true, false => Some (norm lo)
  | false, true => Some (norm hi)
  | false, false => None
  end.

Fixpoint shortest_from (fuel : nat) (x : number) (p q n0 k : Z)
  : Z * Z :=
  match shortest_at x p q n0 k with
  | Some r => r
  | None =>
      match fuel with
      | O => ((p * 10 ^ (k - n0) / q)%Z, n0)
      | S f => shortest_from f x p q n0 (k + 1)
      end
  end.

Definition format_digits (ds : string) (n : Z) : string :=
  let k := Z.of_nat (String.length ds) in
  if ((k <=? n) && (n <=? 21))%Z then ds ++ zeros (Z.to_nat (n - k))
  else if ((0 <? n) && (n <=? 21))%Z
  then take (Z.to_nat n) ds ++ "." ++ drop (Z.to_nat n) ds
  else if ((-6 <? n) && (n <=? 0))%Z
  then "0." ++ zeros (Z.to_nat (- n)) ++ ds
  else
    let e := (n - 1)%Z in
    let es := (if (e <? 0)%Z then "-" else "+") ++ dec_of_Z (Z.abs e) in
    if (k =? 1)%Z then ds ++ "e" ++ es
    else take 1 ds ++ "." ++ drop 1 ds ++ "e" ++ es.

Definition NumberToString (x : number) : string :=
  match x with
  | S754_nan => "NaN"
  | S754_zero _ => "0"
  | S754_infinity s => if s then "-Infinity" else "Infinity"
  | S754_finite s m e =>
      let p := if (0 <=? e)%Z then (Zpos m * 2 ^ e)%Z else Zpos m in
      let q := if (0 <=? e)%Z then 1%Z else (2 ^ (- e))%Z in
      let '(d, n) :=
        shortest_from 16 (S754_finite false m e) p q (magnitude10 p q) 1 in
      (if s then "-" else "") ++ format_digits (dec_of_Z d) n
  end.

End Num.

(* ===================================================================== *)
(** ** Values of the language, as far as props hold them *)
(* ===================================================================== *)

Module JS.
Import Text Num.

(** A prop holds a string, a number or a boolean (PropTypes); [null] and
    [undefined] arrive from removed attributes and missing keys. *)
Inductive value :=
| VUndefined
| VNull
| VBool (b : bool)
| VNum (n : number)
| VStr (s : string).

Inductive type_tag := TUndefined | TObject | TBoolean | TNumber | TString.

(** [typeof v] *)
Definition typeof (v : value) : type_tag :=
  match v with
  | VUndefined => TUndefined
  | VNull => TObject
  | VBool _ => TBoolean
  | VNum _ => TNumber
  | VStr _ => TString
  end.

(** [Number(v)] *)
Definition ToNumber (v : value) : number :=
  match v with
  | VUndefined => NaN
  | VNull => zero
  | VBool b => if b then of_Z 1 else zero
  | VNum n => n
  | VStr s => StringToNumber s
  end.

(** [String(v)] *)
Definition ToString (v : value) : string :=
  match v with
  | VUndefined => "undefined"
  | VNull => "null"
  | VBool b => if b then "true" else "false"
  | VNum n => NumberToString n
  | VStr s => s
  end.

(** Truthiness, as [if (v)] and [!v] see it. *)
Definition truthy (v : value) : bool :=
  match v with
  | VUndefined | VNull => false
  | VBool b => b
  | VNum n =>
      match n with
      | S754_nan | S754_zero _ => false
      | _ => true
      end
  | VStr s => negb (is_empty s)
  end.

(** [v + w] *)
Definition plus (v w : value) : value :=
  match v, w with
  | VStr _, _ | _, VStr _ => VStr (ToString v ++ ToString w)
  | _, _ => VNum (add (ToNumber v) (ToNumber w))
  end.

(** An attribute value, [string | null], as a value. *)
Definition of_attr (a : option string) : value :=
  match a with
  | None => VNull
  | Some s => VStr s
  end.

(** [v == null ? '' : String(v)] *)
Definition display (v : value) : string :=
  match v with
  | VUndefined | VNull => ""
  | _ => ToString v
  end.

(** [obj[key]] on a props object. *)
Definition get (o : gmap string value) (key : string) : value :=
  default VUndefined (o !! key).

End JS.

(* ===================================================================== *)
(** ** Markup: placeholders and the elements of a parsed fragment *)
(* ===================================================================== *)

Module Markup.
Import Text.

Definition dquote : string := String "034"%char EmptyString.

(** The replacement of one placeholder (BaseComponent.ts, render):
    [<span data-bind="key"></span>]. *)
Definition marker (key : string) : string :=
  "<span data-bind=" ++ dquote ++ key ++ dquote ++ "></span>".

(** One attempt of [/\{\{\s*(\w+)\s*\}\}/] at the start of [s]: the
    captured key and the length of the match.  The classes [\s], [\w]
    and the brace are pairwise disjoint, so the greedy reading is the
    only one. *)
Definition match_placeholder (s : string) : option (string * nat) :=
  match strip_prefix "{{" s with
  | None => None
  | Some r0 =>
      let '(ws1, r1) := span is_space r0 in
      let '(key, r2) := span is_word r1 in
      let '(ws2, r3) := span is_space r2 in
      if is_empty key then None
      else
        match strip_prefix "}}" r3 with
        | None => None
        | Some _ =>
            Some (key, 2 + String.length ws1 + String.length key
                       + String.length ws2 + 2)
        end
  end.

(** [html.replace(/\{\{\s*(\w+)\s*\}\}/g, (_m, key) => marker)]:
    matches are taken left to right and do not overlap; [skip] counts
    the characters of the current match still to pass over. *)
Fixpoint replace_go (skip : nat) (s : string) : string :=
  match s with
  | EmptyString => EmptyString
  | String c r =>
      match skip with
      | S n => replace_go n r
      | O =>
          match match_placeholder s with
          | Some (key, len) => marker key ++ replace_go (Nat.pred len) r
          | None => String c (replace_go 0 r)
          end
      end
  end.

Definition replace_placeholders (html : string) : string :=
  replace_go 0 html.



(** *** Start tags of a fragment

    What [innerHTML] and [querySelectorAll] need of the HTML tokenizer:
    the start tags of the markup, in document order, each with its
    attributes (names in lower case; the first of duplicate names
    counts).  Text, end tags, comments and declarations yield no
    element.  Character references and the raw-text content models of
    [style] and [script] are not interpreted. *)

Record tag := { tag_name : string; tag_attrs : list (string * string) }.

Inductive tstate :=
| Data
| TagOpen
| Skip
| TagName (name : string)
| BeforeAttr (t : string) (attrs : list (string * string))
| AttrName (t : string) (attrs : list (string * string)) (n : string)
| AfterAttrName (t : string) (attrs : list (string * string)) (n : string)
| BeforeValue (t : string) (attrs : list (string * string)) (n : string)
| ValueQuoted (q : ascii) (t : string) (attrs : list (string * string))
    (n v : string)
| ValueUnquoted (t : string) (attrs : list (string * string)) (n v : string).

(** Names and values are accumulated in reverse. *)
Definition mk_tag (t : string) (attrs : list (string * string)) : tag :=
  {| tag_name := srev t; tag_attrs := rev attrs |}.

Definition attr (n v : string) : string * string := (srev n, srev v).

Definition one (c : ascii) : string := String c EmptyString.

Definition is_gt (c : ascii) : bool := Ascii.eqb c ">".
Definition is_slash (c : ascii) : bool := Ascii.eqb c "/".
Definition is_eq (c : ascii) : bool := Ascii.eqb c "=".

Fixpoint scan (st : tstate) (s : string) : list tag :=
  match s with
  | EmptyString => []
  | String c r =>
      match st with
      | Data => if Ascii.eqb c "<" then scan TagOpen r else scan Data r
      | TagOpen =>
          if is_alpha c then scan (TagName (one (lower c))) r
          else if Ascii.eqb c "<" then scan TagOpen r
          else if is_slash c || Ascii.eqb c "!" || Ascii.eqb c "?"
          then scan Skip r
          else scan Data r
      | Skip => if is_gt c then scan Data r else scan Skip r
      | TagName t =>
          if is_space c || is_slash c then scan (BeforeAttr t []) r
          else if is_gt c then mk_tag t [] :: scan Data r
          else scan (TagName (String (lower c) t)) r
      | BeforeAttr t al =>
          if is_space c || is_slash c then scan (BeforeAttr t al) r
          else if is_gt c then mk_tag t al :: scan Data r
          else scan (AttrName t al (one (lower c))) r
      | AttrName t al n =>
          if is_space c then scan (AfterAttrName t al n) r
          else if is_slash c then scan (BeforeAttr t (attr n "" :: al)) r
          else if is_gt c then mk_tag t (attr n "" :: al) :: scan Data r
          else if is_eq c then scan (BeforeValue t al n) r
          else scan (AttrName t al (String (lower c) n)) r
      | AfterAttrName t al n =>
          if is_space c then scan (AfterAttrName t al n) r
          else if is_slash c then scan (BeforeAttr t (attr n "" :: al)) r
          else if is_eq c then scan (BeforeValue t al n) r
          else if is_gt c then mk_tag t (attr n "" :: al) :: scan Data r
          else scan (AttrName t (attr n "" :: al) (one (lower c))) r
      | BeforeValue t al n =>
          if is_space c then scan (BeforeValue t al n) r
          else if Ascii.eqb c "034" || Ascii.eqb c "039"
          then scan (ValueQuoted c t al n "") r
          else if is_gt c then mk_tag t (attr n "" :: al) :: scan Data r
          else scan (ValueUnquoted t al n (one c)) r
      | ValueQuoted q t al n v =>
          if Ascii.eqb c q then scan (BeforeAttr t (attr n v :: al)) r
          else scan (ValueQuoted q t al n (String c v)) r
      | ValueUnquoted t al n v =>
          if is_space c then scan (BeforeAttr t (attr n v :: al)) r
          else if is_gt c then mk_tag t (attr n v :: al) :: scan Data r
          else scan (ValueUnquoted t al n (String c v)) r
      end
  end.

Definition parse (html : string) : list tag := scan Data html.

(** [getAttribute]: the first attribute of that name. *)
Fixpoint lookup_attr (name : string) (al : list (string * string))
  : option string :=
  match al with
  | [] => None
  | (n, v) :: r => if String.eqb n name then Some v else lookup_attr name r
  end.


End Markup.

(* ===================================================================== *)
(** ** BaseComponent, final generation (src/components/BaseComponent.ts) *)
(* ===================================================================== *)

Module BaseComponent.
Import Text JS Markup.

(** The children of the shadow root: the style and link elements
    [ensureStyles] appends, and the elements parsed from markup.  An
    element is a mutable object; [el_id] is its identity, [el_text] its
    text content once [textContent] was assigned. *)
Inductive style_node := StyleEl (css : string) | LinkEl (href : string).

Record element := { el_id : nat; el_tag : tag; el_text : option string }.

Inductive node := NStyle (s : style_node) | NElem (e : element).

(** What the page can observe of a component, in order. *)
Inductive event :=
| EvTemplate
| EvStyle (s : style_node)
| EvCreate (id : nat) (bind : option string)
| EvSetText (id : nat) (text : string)
| EvListen (id : nat) (type method : string)
| EvWarn (msg : string)
| EvDispatch (name : string) (detail : value).

(** [templateFn]: the caller's function, the constructor's resolver of
    [templateId] (which warns when the template is missing), the
    resolver [useTemplateById] installs when the template is missing
    (silent), or the closure over a template element that was found. *)
Inductive template :=
| TemplateFunction (f : gmap string value -> string)
| ResolveTemplateId
| ResolveTemplateIdQuiet
| TemplateElement (innerHTML : string).

Record component := {
  props : gmap string value;
  templateFn : option template;
  templateId : option string;
  initialized : bool;
  bindings : list (string * list nat);
  styles : option (list string);
  stylesIsPath : gset string;
  styleAdded : gset string;
  shadowRoot : option (list node);
  callable : list string;
  next_id : nat;
  log : list event
}.

Definition with_props (p : gmap string value) (c : component) :=
  {| props := p; templateFn := templateFn c; templateId := templateId c;
     initialized := initialized c; bindings := bindings c;
     styles := styles c; stylesIsPath := stylesIsPath c;
     styleAdded := styleAdded c; shadowRoot := shadowRoot c;
     callable := callable c; next_id := next_id c; log := log c |}.

Definition with_template (f : option template) (i : option string)
    (c : component) :=
  {| props := props c; templateFn := f; templateId := i;
     initialized := initialized c; bindings := bindings c;
     styles := styles c; stylesIsPath := stylesIsPath c;
     styleAdded := styleAdded c; shadowRoot := shadowRoot c;
     callable := callable c; next_id := next_id c; log := log c |}.

Definition with_initialized (b : bool) (c : component) :=
  {| props := props c; templateFn := templateFn c;
     templateId := templateId c;
     initialized := b; bindings := bindings c;
     styles := styles c; stylesIsPath := stylesIsPath c;
     styleAdded := styleAdded c; shadowRoot := shadowRoot c;
     callable := callable c; next_id := next_id c; log := log c |}.

Definition with_bindings (b : list (string * list nat)) (c : component) :=
  {| props := props c; templateFn := templateFn c;
     templateId := templateId c;
     initialized := initialized c; bindings := b;
     styles := styles c; stylesIsPath := stylesIsPath c;
     styleAdded := styleAdded c; shadowRoot := shadowRoot c;
     callable := callable c; next_id := next_id c; log := log c |}.

Definition with_styleAdded (a : gset string) (c : component) :=
  {| props := props c; templateFn := templateFn c;
     templateId := templateId c;
     initialized := initialized c; bindings := bindings c;
     styles := styles c; stylesIsPath := stylesIsPath c;
     styleAdded := a; shadowRoot := shadowRoot c;
     callable := callable c; next_id := next_id c; log := log c |}.

Definition with_shadow (sr : option (list node)) (c : component) :=
  {| props := props c; templateFn := templateFn c;
     templateId := templateId c;
     initialized := initialized c; bindings := bindings c;
     styles := styles c; stylesIsPath := stylesIsPath c;
     styleAdded := styleAdded c; shadowRoot := sr;
     callable := callable c; next_id := next_id c; log := log c |}.

Definition with_next_id (n : nat) (c : component) :=
  {| props := props c; templateFn := templateFn c;
     templateId := templateId c;
     initialized := initialized c; bindings := bindings c;
     styles := styles c; stylesIsPath := stylesIsPath c;
     styleAdded := styleAdded c; shadowRoot := shadowRoot c;
     callable := callable c; next_id := n; log := log c |}.

Definition emit_log (evs : list event) (c : component) :=
  {| props := props c; templateFn := templateFn c;
     templateId := templateId c;
     initialized := initialized c; bindings := bindings c;
     styles := styles c; stylesIsPath := stylesIsPath c;
     styleAdded := styleAdded c; shadowRoot := shadowRoot c;
     callable := callable c; next_id := next_id c; log := (log c ++ evs)%list |}.

(** *** Elements of the shadow root *)

Definition elements (ns : list node) : list element :=
  omap (fun n => match n with NElem e => Some e | NStyle _ => None end) ns.

Definition shadow_elements (c : component) : list element :=
  match shadowRoot c with Some ns => elements ns | None => [] end.

Definition el_attr (name : string) (e : element) : option string :=
  lookup_attr name (tag_attrs (el_tag e)).

(** [el.textContent = text] on the element object [id]. *)
Definition assign (id : nat) (text : string) (e : element) : element :=
  if Nat.eqb (el_id e) id
  then {| el_id := el_id e; el_tag := el_tag e; el_text := Some text |}
  else e.

Definition assign_text (id : nat) (text : string) (n : node) : node :=
  match n with
  | NElem e => NElem (assign id text e)
  | NStyle _ => n
  end.

Definition set_text (id : nat) (text : string) (c : component)
  : component :=
  emit_log [EvSetText id text]
    (with_shadow (map (assign_text id text) <$> shadowRoot c) c).

(** [for (const el of els) el.textContent = text] *)
Definition set_texts (els : list nat) (text : string) (c : component)
  : component :=
  fold_left (fun c id => set_text id text c) els c.

(** *** The binding table, a [Map] in insertion order *)

Fixpoint bindings_get (key : string) (b : list (string * list nat))
  : option (list nat) :=
  match b with
  | [] => None
  | (k, els) :: r => if String.eqb k key then Some els else bindings_get key r
  end.

(** [if (!bindings.has(key)) bindings.set(key, []);
     bindings.get(key).push(el)] *)
Fixpoint bindings_push (key : string) (el : nat)
    (b : list (string * list nat)) : list (string * list nat) :=
  match b with
  | [] => [(key, [el])]
  | (k, els) :: r =>
      if String.eqb k key then (k, (els ++ [el])%list) :: r
      else (k, els) :: bindings_push key el r
  end.

(** *** updateBindings *)

Definition update_entry (c : component) (entry : string * list nat)
  : component :=
  set_texts (snd entry) (display (get (props c) (fst entry))) c.

(** [for (const [k, els] of this.bindings.entries()) ...] *)
Definition update_all (c : component) : component :=
  fold_left update_entry (bindings c) c.

Definition updateBindings (key : option string) (c : component)
  : component :=
  match shadowRoot c with
  | None => c
  | Some _ =>
      if negb (initialized c) then c
      else
        match key with
        | Some k =>
            if is_empty k then update_all c
            else
              set_texts (default [] (bindings_get k (bindings c)))
                (display (get (props c) k)) c
        | None => update_all c
        end
  end.

(** *** The props proxy: [this.props[prop] = value] *)

Definition props_set (prop : string) (v : value) (c : component)
  : component :=
  let c1 := with_props (<[prop := v]> (props c)) c in
  if initialized c1 then updateBindings (Some prop) c1 else c1.

(** [Object.assign(this.props, initialProps)] *)
Definition assign_props (l : list (string * value)) (c : component)
  : component :=
  fold_left (fun c kv => props_set (fst kv) (snd kv) c) l c.

(** *** constructor *)

(** [/(^\.\/|^\/|\.css$|^https?:\/\/)/i] *)
Definition pathRegex (s : string) : bool :=
  let l := lowercase s in
  startsWith l "./" || startsWith l "/" || endsWith l ".css"
  || startsWith l "http://" || startsWith l "https://".

Inductive template_arg :=
| TemplateIdArg (id : string)
| TemplateFnArg (f : gmap string value -> string).

(** The methods the base class itself declares. *)
Definition base_methods : list string :=
  ["useTemplateById"; "disconnectedCallback"; "connectedCallback";
   "attributeChangedCallback"; "setProp"; "emit"; "ensureStyles";
   "render"; "updateBindings"; "bindActions"].

(** [methods] lists the names [m] with [typeof this[m] === 'function']
    that a [data-action] may mention: the methods of the class. *)
Definition construct (methods : list string) (template : option template_arg)
    (initialProps : option (list (string * value)))
    (styles_arg : option (list string)) : component :=
  let st :=
    match styles_arg with
    | Some ((_ :: _) as l) => Some (filter (fun s => negb (is_empty s) = true) l)
    | _ => None
    end in
  let c0 :=
    {| props := ∅; templateFn := None; templateId := None;
       initialized := false; bindings := [];
       styles := st;
       stylesIsPath :=
         list_to_set (filter (fun s => pathRegex s = true) (default [] st));
       styleAdded := ∅; shadowRoot := Some [];
       callable := methods; next_id := 0; log := [] |} in
  let c1 :=
    match initialProps with
    | Some l => assign_props l c0
    | None => c0
    end in
  match template with
  | Some (TemplateIdArg id) =>
      with_template (Some ResolveTemplateId) (Some id) c1
  | Some (TemplateFnArg f) =>
      with_template (Some (TemplateFunction f)) (templateId c1) c1
  | None => c1
  end.

(** *** ensureStyles *)

Definition ensure_style (c : component) (s : string) : component :=
  if decide (s ∈ styleAdded c) then c
  else
    let n := if decide (s ∈ stylesIsPath c) then LinkEl s else StyleEl s in
    emit_log [EvStyle n]
      (with_styleAdded ({[ s ]} ∪ styleAdded c)
         (with_shadow ((fun ns => (ns ++ [NStyle n])%list) <$> shadowRoot c) c)).

Definition ensureStyles (c : component) : component :=
  match shadowRoot c, styles c with
  | Some _, Some l => fold_left ensure_style l c
  | _, _ => c
  end.

(** *** bindActions *)

(** One [event:methodName] declaration of the element [id]: a listener
    when the event name is not empty and the method exists, a warning
    otherwise.  A declaration without [:] has no method name, and the
    lookup [this[undefined]] reads the property called undefined. *)
Definition action_event (methods : list string) (id : nat)
    (action : string) : event :=
  let parts := map trim (split ":" action) in
  let ev := nth 0 parts "undefined" in
  let methodName := nth 1 parts "undefined" in
  if negb (is_empty ev) && bool_decide (methodName ∈ methods)
  then EvListen id ev methodName
  else
    EvWarn ("No method " ++ dquote ++ methodName ++ dquote
            ++ " found on component for action " ++ dquote
            ++ action ++ dquote).

Definition bind_action (id : nat) (c : component) (action : string)
  : component :=
  emit_log [action_event (callable c) id action] c.

Definition bind_element_actions (c : component) (e : element)
  : component :=
  match el_attr "data-action" e with
  | Some a => fold_left (bind_action (el_id e)) (split ";" a) c
  | None => c
  end.

Definition bindActions (c : component) : component :=
  match shadowRoot c with
  | None => c
  | Some ns => fold_left bind_element_actions (elements ns) c
  end.

(** *** render *)

(** [this.templateFn({ props: this.props })], against the template
    elements of the document (id to innerHTML). *)
Definition call_template (document : gmap string string) (t : template)
    (c : component) : string * component :=
  let c1 := emit_log [EvTemplate] c in
  match t with
  | TemplateFunction f => (f (props c), c1)
  | TemplateElement h => (h, c1)
  | ResolveTemplateId =>
      match document !! default "" (templateId c) with
      | Some h => (h, c1)
      | None =>
          ("", emit_log
                 [EvWarn ("BaseComponent: template with id " ++ dquote
                          ++ default "undefined" (templateId c) ++ dquote
                          ++ " not found.")] c1)
      end
  | ResolveTemplateIdQuiet =>
      (default "" (document !! default "" (templateId c)), c1)
  end.

(** [shadowRoot.innerHTML += processed]: the children are serialized and
    parsed again together with the new markup, so every element of the
    result is a new object. *)
Inductive blueprint :=
| BStyle (s : style_node)
| BElem (t : tag) (text : option string).

Definition serialize (n : node) : blueprint :=
  match n with
  | NStyle s => BStyle s
  | NElem e => BElem (el_tag e) (el_text e)
  end.

Fixpoint instantiate (id : nat) (bs : list blueprint) : list node :=
  match bs with
  | [] => []
  | BStyle s :: r => NStyle s :: instantiate id r
  | BElem t x :: r =>
      NElem {| el_id := id; el_tag := t; el_text := x |}
      :: instantiate (S id) r
  end.

Definition created (e : element) : event :=
  EvCreate (el_id e) (el_attr "data-bind" e).

Definition append_markup (processed : string) (c : component)
  : component :=
  match shadowRoot c with
  | None => c
  | Some ns =>
      let bs := (map serialize ns
                 ++ map (fun t => BElem t None) (parse processed))%list in
      let ns' := instantiate (next_id c) bs in
      emit_log (map created (elements ns'))
        (with_next_id (next_id c + length (elements ns'))
           (with_shadow (Some ns') c))
  end.

(** The body of [boundEls.forEach]. *)
Definition bind_element (c : component) (e : element) : component :=
  match el_attr "data-bind" e with
  | None => c
  | Some key =>
      if is_empty key then c
      else
        let c1 := with_bindings (bindings_push key (el_id e) (bindings c)) c in
        set_text (el_id e) (display (get (props c1) key)) c1
  end.

Definition has_attr (name : string) (e : element) : bool :=
  match el_attr name e with Some _ => true | None => false end.

Definition render (document : gmap string string) (c : component)
  : component :=
  match shadowRoot c with
  | None => c
  | Some _ =>
      match templateFn c with
      | None => c
      | Some t =>
          if negb (initialized c) then
            let c1 := ensureStyles c in
            let '(rawHtml, c2) := call_template document t c1 in
            let processed := replace_placeholders rawHtml in
            let c3 := append_markup processed c2 in
            let boundEls :=
              filter (fun e => has_attr "data-bind" e = true)
                (shadow_elements c3) in
            let c4 := fold_left bind_element boundEls c3 in
            with_initialized true (bindActions c4)
          else update_all c
      end
  end.

(** *** Lifecycle and operations *)

Definition connectedCallback (document : gmap string string)
    (c : component) : component :=
  render document c.

Definition disconnectedCallback (c : component) : component :=
  match shadowRoot c with
  | None => c
  | Some _ =>
      with_styleAdded ∅
        (with_bindings []
           (with_initialized false (with_shadow (Some []) c)))
  end.

Definition useTemplateById (document : gmap string string) (id : string)
    (c : component) : component :=
  match document !! id with
  | None =>
      with_template (Some ResolveTemplateIdQuiet) (Some id)
        (emit_log
           [EvWarn ("BaseComponent: template with id " ++ dquote ++ id
                    ++ dquote ++ " not found.")] c)
  | Some h =>
      render document (with_template (Some (TemplateElement h)) (Some id) c)
  end.

(** The coercion of [attributeChangedCallback]: the new attribute value
    in the type the prop holds now. *)
Definition coerce (current : value) (newValue : option string) : value :=
  let value := of_attr newValue in
  let value :=
    match typeof current with
    | TNumber => VNum (ToNumber (of_attr newValue))
    | _ => value
    end in
  match typeof current with
  | TBoolean => VBool (bool_decide (newValue <> None))
  | _ => value
  end.

Definition attributeChangedCallback (name : string)
    (oldValue newValue : option string) (c : component) : component :=
  if bool_decide (oldValue <> newValue) then
    let currentValue := get (props c) name in
    let value := coerce currentValue newValue in
    let c1 := props_set name value c in
    updateBindings (Some name) c1
  else c.

(** [dispatchEvent(new CustomEvent(eventName, { detail, ... }))] *)
Definition emit (eventName : string) (detail : value) (c : component)
  : component :=
  emit_log [EvDispatch eventName detail] c.

(** *** What is observed of a component

    Readings of the event log and of the shadow root, used to state what
    the operations above do. *)

(** The elements created with a [data-bind] attribute, with its value. *)
Definition created_bound (l : list event) : list (nat * string) :=
  omap (fun ev =>
          match ev with
          | EvCreate id (Some key) => Some (id, key)
          | _ => None
          end) l.

(** How many times the template was turned into markup. *)
Definition materializations (l : list event) : nat :=
  length (omap (fun ev =>
                  match ev with EvTemplate => Some tt | _ => None end) l).

(** The texts assigned to the element [id], in order. *)
Definition texts_of (id : nat) (l : list event) : list string :=
  omap (fun ev =>
          match ev with
          | EvSetText i text => if Nat.eqb i id then Some text else None
          | _ => None
          end) l.

(** The events dispatched, in order. *)
Definition dispatched (l : list event) : list (string * value) :=
  omap (fun ev =>
          match ev with
          | EvDispatch name detail => Some (name, detail)
          | _ => None
          end) l.

(** The kinds of events a step may add to the log. *)
Definition is_text (ev : event) : Prop :=
  match ev with EvSetText _ _ => True | _ => False end.

Definition is_style (ev : event) : Prop :=
  match ev with EvStyle _ => True | _ => False end.

Definition is_action (ev : event) : Prop :=
  match ev with EvListen _ _ _ | EvWarn _ => True | _ => False end.

(** A component whose first render is done. *)
Definition rendered (c : component) : Prop :=
  initialized c = true /\ is_Some (shadowRoot c).

(** The style or link element a configured style is injected as. *)
Definition style_node_of (c : component) (s : string) : style_node :=
  if decide (s ∈ stylesIsPath c) then LinkEl s else StyleEl s.

(** The style and link elements among the children. *)
Definition style_nodes (ns : list node) : list style_node :=
  omap (fun n => match n with NStyle s => Some s | NElem _ => None end) ns.

(** The style and link elements of the shadow root. *)
Definition shadow_styles (c : component) : list style_node :=
  match shadowRoot c with Some ns => style_nodes ns | None => [] end.

(** The style elements of the shadow root mirror [styleAdded]: [added]
    lists, in the order of injection and without repetition, the styles
    that were injected. *)
Definition styles_mirror (c : component) (added : list string) : Prop :=
  NoDup added
  /\ (forall s, s ∈ added <-> s ∈ styleAdded c)
  /\ shadow_styles c = map (style_node_of c) added.

(** The key an element displays: its non-empty [data-bind] attribute. *)
Definition bound_key (t : tag) : option string :=
  match lookup_attr "data-bind" (tag_attrs t) with
  | Some key => if is_empty key then None else Some key
  | None => None
  end.

(** The text the first render gives an element with this tag. *)
Definition bound_text (p : gmap string value) (t : tag) : option string :=
  (fun key => display (get p key)) <$> bound_key t.

(** The binding table of a list of elements: each displayed key with the
    elements that display it, keys and elements in document order. *)
Definition bind_table (els : list element) : list (string * list nat) :=
  fold_left
    (fun b e =>
       match bound_key (el_tag e) with
       | Some key => bindings_push key (el_id e) b
       | None => b
       end) els [].

(** Every element of the shadow root that displays a key is listed under
    that key in the binding table. *)
Definition markers_recorded (c : component) : Prop :=
  forall e key,
    e ∈ shadow_elements c -> bound_key (el_tag e) = Some key ->
    el_id e ∈ default [] (bindings_get key (bindings c)).

(** The elements a fragment is parsed into, numbered from [id]. *)
Definition fresh_elements (id : nat) (tags : list tag) : list element :=
  imap (fun i t => {| el_id := id + i; el_tag := t; el_text := None |}) tags.

End BaseComponent.

(* ===================================================================== *)
(** ** ExampleComponent (components/ExampleComponent/ExampleComponent.ts) *)
(* ===================================================================== *)

Module ExampleComponent.
Import JS BaseComponent.

Definition observedAttributes : list string := ["count"; "label"; "active"].

Definition methods : list string :=
  (["increment"; "toggle"] ++ base_methods)%list.

Section Assets.
(** The three [bundle-text:] imports: the compiled template and the two
    style sheets, whose files are not part of the sources. *)
Variables (templateHtml baseStyles styles : string).

Definition new : component :=
  construct methods
    (Some (TemplateFnArg (fun _ => templateHtml)))
    (Some [("count", VNum (Num.of_Z 0)); ("label", VStr "Counter");
           ("active", VBool false)])
    (Some [baseStyles; styles]).
End Assets.

(** [this.props.count += 1; this.emit('incremented', this.props.count)] *)
Definition increment (c : component) : component :=
  let c1 :=
    props_set "count" (plus (get (props c) "count") (VNum (Num.of_Z 1))) c in
  emit "incremented" (get (props c1) "count") c1.

(** [this.props.active = !this.props.active;
     this.emit('toggled', this.props.active)] *)
Definition toggle (c : component) : component :=
  let c1 :=
    props_set "active" (VBool (negb (truthy (get (props c) "active")))) c in
  emit "toggled" (get (props c1) "active") c1.

End ExampleComponent.

(* ===================================================================== *)
(** ** The two earlier generations of the base class *)
(* ===================================================================== *)

(** Both replace the whole content of the shadow root at every render and
    wire the actions again; they differ in the template source and in how
    [attributeChangedCallback] stores the value. *)
Module Earlier.
Import Text JS Markup.

Record component (T : Type) := {
  props : gmap string value;
  template : option T;
  shadowRoot : option string;
  callable : list string;
  log : list BaseComponent.event
}.
Arguments props {T}.
Arguments template {T}.
Arguments shadowRoot {T}.
Arguments callable {T}.
Arguments log {T}.

Definition with_props {T} (p : gmap string value) (c : component T) :=
  {| props := p; template := template c; shadowRoot := shadowRoot c;
     callable := callable c; log := log c |}.

(** [shadowRoot.innerHTML = html; this.bindActions()] *)
Definition action_events (methods : list string) (html : string)
  : list BaseComponent.event :=
  concat
    (imap (fun i t =>
             match lookup_attr "data-action" (tag_attrs t) with
             | Some a => map (BaseComponent.action_event methods i) (split ";" a)
             | None => []
             end)
       (parse html)).

Definition replace_content {T} (html : string) (c : component T) :=
  {| props := props c; template := template c; shadowRoot := Some html;
     callable := callable c;
     log := (log c ++ action_events (callable c) html)%list |}.

Definition warn {T} (msg : string) (c : component T) :=
  {| props := props c; template := template c; shadowRoot := shadowRoot c;
     callable := callable c;
     log := (log c ++ [BaseComponent.EvWarn msg])%list |}.

(** The coercion shared by all generations. *)
Definition coerced {T} (c : component T) (name : string)
    (newValue : option string) : value :=
  BaseComponent.coerce (get (props c) name) newValue.
End Earlier.

(** Generation 1: the template is the id of a template element. *)
Module Gen1.
Import Text JS Markup Earlier.

Definition construct (methods : list string) (templateId : option string)
  : component string :=
  {| props := ∅; template := templateId; shadowRoot := Some "";
     callable := methods; log := [] |}.

Definition render (document : gmap string string) (c : component string)
  : component string :=
  match shadowRoot c with
  | None => c
  | Some _ =>
      match template c with
      | None => c
      | Some id =>
          if is_empty id then c
          else
            match document !! id with
            | Some content => replace_content content c
            | None =>
                warn ("Template with id " ++ dquote ++ id ++ dquote
                      ++ " not found.") c
            end
      end
  end.

Definition attributeChangedCallback (document : gmap string string)
    (name : string) (oldValue newValue : option string)
    (c : component string) : component string :=
  if bool_decide (oldValue <> newValue) then
    render document
      (with_props (<[name := coerced c name newValue]> (props c)) c)
  else c.
End Gen1.

(** Generation 2: the template is a function of the props. *)
Module Gen2.
Import Text JS Markup Earlier.

Definition templateFn : Type := gmap string value -> string.

Definition construct (methods : list string) (f : option templateFn)
  : component templateFn :=
  {| props := ∅; template := f; shadowRoot := Some "";
     callable := methods; log := [] |}.

Definition render (c : component templateFn) : component templateFn :=
  match shadowRoot c with
  | None => c
  | Some _ =>
      match template c with
      | Some f => replace_content (f (props c)) c
      | None => c
      end
  end.

(** [this.props = { ...this.props, [name]: value }; this.render()] *)
Definition attributeChangedCallback (name : string)
    (oldValue newValue : option string)
    (c : component templateFn) : component templateFn :=
  if bool_decide (oldValue <> newValue) then
    render (with_props (<[name := coerced c name newValue]> (props c)) c)
  else c.
End Gen2.

(* ===================================================================== *)
(** ** The offline cache worker (public/scripts/sw.js) *)
(* ===================================================================== *)

Module SW.
Import Text.

Definition staticCacheName : string := "basic-static-v1".
Definition contentImgsCache : string := "basic-content-imgs".
Definition allCaches : list string := [staticCacheName; contentImgsCache].

(** [url.replace(/-\d+px\.jpg$/, '')] (serveImg).  A match ends the
    string, so it is looked for from the end: the literal, the longest run
    of digits before it, and the dash. *)
Definition image_key (url : string) : string :=
  match strip_prefix (srev "px.jpg") (srev url) with
  | Some r =>
      let '(ds, r') := span is_digit r in
      if is_empty ds then url
      else
        match r' with
        | String "-" p => srev p
        | _ => url
        end
  | None => url
  end.

(** [url.replace(/-\dx\.js$/, '')] (serveScript) *)
Definition script_key (url : string) : string :=
  match strip_prefix (srev "x.js") (srev url) with
  | Some (String d (String "-" p)) => if is_digit d then srev p else url
  | _ => url
  end.

(** The suffixes the two patterns strip: [digits] is one digit or more. *)
Definition is_digits (ds : string) : bool :=
  negb (is_empty ds) && all_chars is_digit ds.

Definition image_decoration (digits : string) : string :=
  "-" ++ digits ++ "px.jpg".

Definition script_decoration (digit : ascii) : string :=
  "-" ++ String digit "x.js".

(** A request is read through its URL: the whole of it, which is the
    cache key, and the origin and the path [new URL] finds in it. *)
Record request := { url : string; origin : string; pathname : string }.

Section Worker.
(** Responses are opaque to the worker. *)
Variable response : Type.

(** A cache maps request URLs to responses; the cache storage lists the
    named caches in the order of their creation. *)
Definition cache_storage : Type := list (string * gmap string response).

(** The world of the worker: the cache storage, and the URLs fetched from
    the network so far. *)
Record world := { caches : cache_storage; fetched : list string }.

(** The network answers a URL with a response or fails. *)
Variable network : string -> option response.

(** *** Promises: a state transformer that resolves or rejects *)

Inductive outcome (A : Type) := Resolved (a : A) | Rejected.
Arguments Resolved {A}.
Arguments Rejected {A}.

Definition promise (A : Type) : Type := world -> outcome A * world.

Definition resolve {A} (a : A) : promise A := fun w => (Resolved a, w).

(** [p.then(k)] *)
Definition then_ {A B} (p : promise A) (k : A -> promise B) : promise B :=
  fun w =>
    match p w with
    | (Resolved a, w') => k a w'
    | (Rejected, w') => (Rejected, w')
    end.

Notation "x <- p ;; k" := (then_ p (fun x => k))
  (at level 100, p at next level, right associativity).

(** *** The cache and fetch interfaces *)

Fixpoint lookup_cache (name : string) (cs : cache_storage)
  : option (gmap string response) :=
  match cs with
  | [] => None
  | (n, c) :: r => if String.eqb n name then Some c else lookup_cache name r
  end.

Definition has_cache (name : string) (cs : cache_storage) : bool :=
  match lookup_cache name cs with Some _ => true | None => false end.

(** [caches.open(name)]: the cache is created when it does not exist; the
    handle is its name. *)
Definition caches_open (name : string) : promise string :=
  fun w =>
    (Resolved name,
     if has_cache name (caches w) then w
     else {| caches := (caches w ++ [(name, ∅)])%list;
             fetched := fetched w |}).

(** The response a named cache holds for a key. *)
Definition entry (cache key : string) (cs : cache_storage)
  : option response :=
  match lookup_cache cache cs with
  | Some c => c !! key
  | None => None
  end.

(** [cache.match(key)] *)
Definition cache_match (cache key : string) : promise (option response) :=
  fun w => (Resolved (entry cache key (caches w)), w).

Fixpoint put_in (cache key : string) (r : response) (cs : cache_storage)
  : cache_storage :=
  match cs with
  | [] => []
  | (n, c) :: rest =>
      if String.eqb n cache then (n, <[key := r]> c) :: rest
      else (n, c) :: put_in cache key r rest
  end.

(** [cache.put(key, response.clone())] *)
Definition cache_put (cache key : string) (r : response) : promise unit :=
  fun w =>
    (Resolved tt,
     {| caches := put_in cache key r (caches w); fetched := fetched w |}).

(** [caches.match(key)]: the first cache, in creation order, that holds
    the key. *)
Fixpoint match_any (key : string) (cs : cache_storage) : option response :=
  match cs with
  | [] => None
  | (_, c) :: r =>
      match c !! key with
      | Some x => Some x
      | None => match_any key r
      end
  end.

Definition caches_match (key : string) : promise (option response) :=
  fun w => (Resolved (match_any key (caches w)), w).

(** [caches.keys()] *)
Definition caches_keys : promise (list string) :=
  fun w => (Resolved (map fst (caches w)), w).

(** [caches.delete(name)] *)
Definition caches_delete (name : string) : promise bool :=
  fun w =>
    (Resolved (has_cache name (caches w)),
     {| caches := filter (fun e => negb (String.eqb (fst e) name) = true)
                    (caches w);
        fetched := fetched w |}).

(** [fetch(request)] *)
Definition fetch (req : request) : promise response :=
  fun w =>
    let w' := {| caches := caches w;
                 fetched := (fetched w ++ [url req])%list |} in
    match network (url req) with
    | Some r => (Resolved r, w')
    | None => (Rejected, w')
    end.

(** [Promise.all(names.map(f))] *)
Fixpoint all {A B} (f : A -> promise B) (l : list A) : promise (list B) :=
  match l with
  | [] => resolve []
  | a :: r => b <- f a ;; bs <- all f r ;; resolve (b :: bs)
  end.

(** *** The listeners *)

(** install *)
Definition on_install : promise unit :=
  _ <- caches_open staticCacheName ;; resolve tt.

Definition stale (cacheName : string) : bool :=
  startsWith cacheName "basic-"
  && negb (bool_decide (cacheName ∈ allCaches)).

(** activate *)
Definition on_activate : promise (list bool) :=
  cacheNames <- caches_keys ;;
  all caches_delete (filter (fun n => stale n = true) cacheNames).

Definition serveImg (req : request) : promise response :=
  let storageUrl := image_key (url req) in
  cache <- caches_open contentImgsCache ;;
  response <- cache_match cache storageUrl ;;
  match response with
  | Some r => resolve r
  | None =>
      networkResponse <- fetch req ;;
      _ <- cache_put cache storageUrl networkResponse ;;
      resolve networkResponse
  end.

Definition serveScript (req : request) : promise response :=
  let storageUrl := script_key (url req) in
  cache <- caches_open contentImgsCache ;;
  _ <- (response <- cache_match cache storageUrl ;;
        match response with
        | Some r => resolve (Some r)
        | None => resolve None
        end) ;;
  networkResponse <- fetch req ;;
  _ <- cache_put cache storageUrl networkResponse ;;
  resolve networkResponse.

(** What [event.respondWith] is given: a response, or undefined when the
    cache lookup of the root path finds nothing. *)
Definition some {A} (p : promise A) : promise (option A) :=
  a <- p ;; resolve (Some a).

(** The routes of the fetch listener, tried in order. *)
Definition route (location_origin : string) (req : request)
  : option (promise (option response)) :=
  if String.eqb (origin req) location_origin then
    if String.eqb (pathname req) "/" then Some (caches_match "/skeleton")
    else if startsWith (pathname req) "/img/" then Some (some (serveImg req))
    else if startsWith (pathname req) "/scripts/"
    then Some (some (serveScript req))
    else None
  else None.

(** fetch *)
Definition on_fetch (location_origin : string) (req : request)
  : promise (option response) :=
  match route location_origin req with
  | Some p => p
  | None =>
      response <- caches_match (url req) ;;
      match response with
      | Some r => resolve (Some r)
      | None => some (fetch req)
      end
  end.

End Worker.

Arguments Resolved {A}.
Arguments Rejected {A}.
Arguments caches {response}.
Arguments fetched {response}.

End SW.

(* ===================================================================== *)
(** ** The page controller (public/scripts/indexController.js) *)
(* ===================================================================== *)

Module IndexController.

(** The page, as the controller touches it: whether the platform has
    service workers, the worker scripts registered, the databases opened,
    the [controllerchange] listeners (each is a closure over its own
    [refreshing] variable, whose truthiness is kept here), and the number
    of calls of [window.location.reload]. *)
Record page := {
  serviceWorker : bool;
  registered : list string;
  databases : list string;
  listeners : list bool;
  reloads : nat
}.

(** openDatabase *)
Definition openDatabase (p : page) : page :=
  if negb (serviceWorker p) then p
  else {| serviceWorker := serviceWorker p; registered := registered p;
          databases := (databases p ++ ["wittr"])%list;
          listeners := listeners p; reloads := reloads p |}.

(** _registerServiceWorker: the registration, and the listener with its
    fresh [refreshing] variable. *)
Definition _registerServiceWorker (p : page) : page :=
  if negb (serviceWorker p) then p
  else {| serviceWorker := serviceWorker p;
          registered := (registered p ++ ["/sw.js"])%list;
          databases := databases p;
          listeners := (listeners p ++ [false])%list;
          reloads := reloads p |}.

(** new IndexController(container) *)
Definition IndexController (p : page) : page :=
  _registerServiceWorker (openDatabase p).

(** One run of the listener [function() { if (refreshing) return;
    window.location.reload(); refreshing = true; }]: the new value of its
    variable and whether it reloaded. *)
Definition on_controllerchange (refreshing : bool) : bool * bool :=
  if refreshing then (refreshing, false) else (true, true).

(** A [controllerchange] event runs every listener. *)
Definition controllerchange (p : page) : page :=
  let rs := map on_controllerchange (listeners p) in
  {| serviceWorker := serviceWorker p; registered := registered p;
     databases := databases p;
     listeners := map fst rs;
     reloads := reloads p + length (filter (fun r => snd r = true) rs) |}.

End IndexController.

(* ===================================================================== *)
(** ** setProp and the attributes of the element (all generations) *)
(* ===================================================================== *)

(** [setProp] has the same text in the three generations of the base
    class: it assigns the prop and then writes or removes the attribute
    of the same name.  Writing or removing an observed attribute makes the
    platform call [attributeChangedCallback] before the call returns, so
    the element is modelled with its attributes. *)
Module Attributes.
Import Text JS.

Section Element.
(** The component object of one generation: its assignment
    [this.props[key] = value] and its [attributeChangedCallback]. *)
Variable C : Type.
Variable assign_prop : string -> value -> C -> C.
Variable attributeChangedCallback :
  string -> option string -> option string -> C -> C.
(** The platform: the [observedAttributes] the class was defined with,
    and the names [setAttribute] accepts (the others raise
    InvalidCharacterError). *)
Variable observedAttributes : list string.
Variable valid_name : string -> bool.

Record host := { this : C; attributes : gmap string string }.

(** A call returns, or throws and leaves the element as it is then. *)
Inductive completion := Normal (h : host) | Throws (h : host).

(** The reaction to a changed attribute, run only for observed names. *)
Definition reaction (name : string) (oldValue newValue : option string)
    (h : host) : host :=
  if bool_decide (name ∈ observedAttributes)
  then {| this := attributeChangedCallback name oldValue newValue (this h);
          attributes := attributes h |}
  else h.

(** [this.setAttribute(qualifiedName, value)] on an HTML element: the
    name is checked, then put in lower case; the reaction runs also when
    the value is the one the attribute had. *)
Definition setAttribute (qualifiedName val : string) (h : host)
  : completion :=
  if negb (valid_name qualifiedName) then Throws h
  else
    let name := lowercase qualifiedName in
    Normal
      (reaction name (attributes h !! name) (Some val)
         {| this := this h; attributes := <[name := val]> (attributes h) |}).

(** [this.removeAttribute(qualifiedName)]: nothing happens when the
    attribute is absent. *)
Definition removeAttribute (qualifiedName : string) (h : host) : host :=
  let name := lowercase qualifiedName in
  match attributes h !! name with
  | None => h
  | Some old =>
      reaction name (Some old) None
        {| this := this h; attributes := delete name (attributes h) |}
  end.

Definition setProp (key : string) (v : value) (h : host) : completion :=
  let h1 := {| this := assign_prop key v (this h);
               attributes := attributes h |} in
  match typeof v with
  | TBoolean =>
      if truthy v then setAttribute key "" h1
      else Normal (removeAttribute key h1)
  | _ => setAttribute key (ToString v) h1
  end.

(** The element a call leaves. *)
Definition final (r : completion) : host :=
  match r with Normal h | Throws h => h end.

End Element.

Arguments this {C}.
Arguments attributes {C}.
Arguments Normal {C}.
Arguments Throws {C}.
Arguments final {C}.

(** The current rule for attribute names (DOM, valid attribute local
    name): not empty, and no ASCII white space, NUL, slash, equals sign or
    greater-than sign. *)
Definition excluded (c : ascii) : bool :=
  (code c =? 9)%N || (code c =? 10)%N || (code c =? 12)%N
  || (code c =? 13)%N || (code c =? 32)%N || (code c =? 0)%N
  || Ascii.eqb c "/" || Ascii.eqb c "=" || Ascii.eqb c ">".

Definition valid_attribute_local_name (name : string) : bool :=
  negb (is_empty name) && all_chars (fun c => negb (excluded c)) name.

(** [setProp] of the final generation: the assignment goes through the
    props proxy. *)
Module OfFinal.
Definition setProp :=
  setProp BaseComponent.component BaseComponent.props_set
    BaseComponent.attributeChangedCallback.
End OfFinal.

(** The earlier generations assign into the plain props object. *)
Definition assign_plain {T} (key : string) (v : value)
    (c : Earlier.component T) : Earlier.component T :=
  Earlier.with_props (<[key := v]> (Earlier.props c)) c.

Module OfGen1.
Definition setProp (document : gmap string string) :=
  setProp (Earlier.component string) assign_plain
    (Gen1.attributeChangedCallback document).
End OfGen1.

Module OfGen2.
Definition setProp :=
  setProp (Earlier.component Gen2.templateFn) assign_plain
    Gen2.attributeChangedCallback.
End OfGen2.

End Attributes.

(* ===================================================================== *)
(** ** BadgeComponent (components/Badge/BadgeComponent.ts) *)
(* ===================================================================== *)

Module BadgeComponent.
Import JS BaseComponent.

Definition observedAttributes : list string := ["width"; "text"].

Definition methods : list string := base_methods.

(** The custom properties registered in the page so far. *)
Definition registry : Type := gset string.

(** A constructor step: it returns a value or throws, and leaves a
    registry either way. *)
Definition step (A : Type) : Type := registry -> option A * registry.

Definition ret {A} (a : A) : step A := fun r => (Some a, r).

Definition bind {A B} (m : step A) (k : A -> step B) : step B :=
  fun r =>
    match m r with
    | (Some a, r') => k a r'
    | (None, r') => (None, r')
    end.

(** [window.CSS.registerProperty({ name, ... })]: a name can be
    registered once; a second registration raises
    InvalidModificationError.  The syntax and the initial value of the
    three definitions below are well formed, so nothing else is raised. *)
Definition registerProperty (name : string) : step unit :=
  fun r =>
    if decide (name ∈ r) then (None, r) else (Some tt, {[ name ]} ∪ r).

Section Assets.
Variables (templateHtml baseStyles styles : string).

(** [super(() => templateHtml, { width: 100, text: 'JB' },
           [baseStyles, styles])] *)
Definition base : component :=
  construct methods
    (Some (TemplateFnArg (fun _ => templateHtml)))
    (Some [("width", VNum (Num.of_Z 100)); ("text", VStr "JB")])
    (Some [baseStyles; styles]).

(** [new BadgeComponent()] *)
Definition new : step component :=
  bind (ret base) (fun c =>
  bind (registerProperty "--gradient-highlight") (fun _ =>
  bind (registerProperty "--gradient-opacity") (fun _ =>
  bind (registerProperty "--outline-color") (fun _ =>
  ret c)))).
End Assets.

End BadgeComponent.

(* ===================================================================== *)
(** ** The life of a component: calls of its methods, in any order *)
(* ===================================================================== *)

Module Lifecycle.
Import JS BaseComponent.

(** What the page, the platform or a subclass can call on a component of
    the final generation; [Assign] is an assignment [this.props[prop] = v]
    through the proxy. *)
Inductive call :=
| Connected (document : gmap string string)
| Disconnected
| Assign (prop : string) (v : value)
| AttributeChanged (name : string) (oldValue newValue : option string)
| UseTemplateById (document : gmap string string) (id : string)
| Render (document : gmap string string)
| UpdateBindings (key : option string)
| BindActions
| Emit (eventName : string) (detail : value).

Definition run (c : component) (k : call) : component :=
  match k with
  | Connected document => connectedCallback document c
  | Disconnected => disconnectedCallback c
  | Assign prop v => props_set prop v c
  | AttributeChanged name oldValue newValue =>
      attributeChangedCallback name oldValue newValue c
  | UseTemplateById document id => useTemplateById document id c
  | Render document => render document c
  | UpdateBindings key => updateBindings key c
  | BindActions => bindActions c
  | Emit eventName detail => emit eventName detail c
  end.

Definition run_all (ks : list call) (c : component) : component :=
  fold_left run ks c.

End Lifecycle.

(* ===================================================================== *)
(** ** Concrete pages, requests and components, to run the models on *)
(* ===================================================================== *)

Module Examples.
Import JS BaseComponent.

Definition app : string := "https://app.example".

Definition script_request : SW.request :=
  {| SW.url := "https://app.example/scripts/app-2x.js";
     SW.origin := app;
     SW.pathname := "/scripts/app-2x.js" |}.

Definition root_request : SW.request :=
  {| SW.url := "https://app.example/"; SW.origin := app; SW.pathname := "/" |}.

Definition photo : string := "https://app.example/img/photo".

Definition photo_800 : SW.request :=
  {| SW.url := "https://app.example/img/photo-800px.jpg";
     SW.origin := app;
     SW.pathname := "/img/photo-800px.jpg" |}.

Definition photo_40 : SW.request :=
  {| SW.url := "https://app.example/img/photo-40px.jpg";
     SW.origin := app;
     SW.pathname := "/img/photo-40px.jpg" |}.

(** Responses are numbered; the network answers 2, or is down. *)
Definition online : string -> option nat := fun _ => Some 2.
Definition offline : string -> option nat := fun _ => None.

Definition no_caches : SW.world nat :=
  {| SW.caches := []; SW.fetched := [] |}.

(** The script is already cached, as response 1. *)
Definition script_cached : SW.world nat :=
  {| SW.caches :=
       [(SW.contentImgsCache, {[ "https://app.example/scripts/app" := 1 ]})];
     SW.fetched := [] |}.

(** The application shell is cached, as response 7. *)
Definition shell_cached : SW.world nat :=
  {| SW.caches := [(SW.staticCacheName, {[ "/skeleton" := 7 ]})];
     SW.fetched := [] |}.

Definition new_page : IndexController.page :=
  {| IndexController.serviceWorker := true;
     IndexController.registered := [];
     IndexController.databases := [];
     IndexController.listeners := [];
     IndexController.reloads := 0 |}.




Definition counter : component :=
  connectedCallback ∅
    (ExampleComponent.new "<i>{{count}}</i><b>{{ active }}</b>"
       "i{}" "./x.css").

Definition counter_at_one : component := ExampleComponent.increment counter.

End Examples.

(* ===================================================================== *)
(** * Theorems *)
(* ===================================================================== *)

(** ** Strings *)

Section TextFacts.
Import Text.

Lemma sapp_cons (c : ascii) (s r : string) :
  String c s ++ r = String c (s ++ r).
Proof. reflexivity. Qed.

Lemma sapp_nil_l (s : string) : "" ++ s = s.
Proof. reflexivity. Qed.

Lemma sapp_nil_r (s : string) : s ++ "" = s.
Proof. induction s as [|c s IH]; [done | by rewrite sapp_cons, IH]. Qed.

Lemma sapp_assoc (a b c : string) : (a ++ b) ++ c = a ++ (b ++ c).
Proof. induction a as [|x a IH]; [done | by rewrite !sapp_cons, IH]. Qed.

Lemma rev_onto_spec (s acc : string) : rev_onto s acc = srev s ++ acc.
Proof.
  unfold srev. revert acc.
  induction s as [|c s IH]; intros acc; simpl; [done|].
  rewrite IH, (IH (String c "")), sapp_assoc. done.
Qed.

Lemma srev_cons (c : ascii) (s : string) : srev (String c s) = srev s ++ String c "".
Proof. unfold srev at 1. simpl. apply rev_onto_spec. Qed.

Lemma srev_app (a b : string) : srev (a ++ b) = srev b ++ srev a.
Proof.
  induction a as [|c a IH].
  - by rewrite sapp_nil_l, sapp_nil_r.
  - by rewrite sapp_cons, !srev_cons, IH, sapp_assoc.
Qed.

Lemma srev_involutive (s : string) : srev (srev s) = s.
Proof.
  induction s as [|c s IH]; [done|].
  by rewrite srev_cons, srev_app, IH.
Qed.

Lemma strip_prefix_app (p r : string) : strip_prefix p (p ++ r) = Some r.
Proof.
  induction p as [|c p IH]; [done|].
  rewrite sapp_cons. simpl. by rewrite Ascii.eqb_refl.
Qed.

Lemma strip_prefix_Some (p s r : string) :
  strip_prefix p s = Some r -> s = p ++ r.
Proof.
  revert s. induction p as [|c p IH]; intros s H; simpl in *.
  - by inversion H.
  - destruct s as [|d s]; [done|].
    destruct (Ascii.eqb_spec c d) as [->|]; [|done].
    by rewrite sapp_cons, (IH _ H).
Qed.

Lemma startsWith_spec (s p : string) :
  startsWith s p = true <-> exists r, s = p ++ r.
Proof.
  unfold startsWith. split.
  - destruct (strip_prefix p s) eqn:E; [|done].
    intros _. eexists. by apply strip_prefix_Some.
  - intros [r ->]. by rewrite strip_prefix_app.
Qed.

Lemma span_spec (f : ascii -> bool) (s a b : string) :
  span f s = (a, b) ->
  s = a ++ b /\ all_chars f a = true
  /\ match b with String c _ => f c = false | EmptyString => True end.
Proof.
  revert a b. induction s as [|c s IH]; intros a b H; simpl in H.
  - by inversion H.
  - destruct (f c) eqn:Ec.
    + destruct (span f s) as [a' b'] eqn:E. inversion H; subst.
      destruct (IH _ _ eq_refl) as (-> & Ha & Hb).
      rewrite sapp_cons. simpl. by rewrite Ec, Ha.
    + inversion H; subst. by simpl.
Qed.

Lemma span_app (f : ascii -> bool) (a b : string) :
  all_chars f a = true ->
  match b with String c _ => f c = false | EmptyString => True end ->
  span f (a ++ b) = (a, b).
Proof.
  intros Ha Hb. induction a as [|c a IH].
  - rewrite sapp_nil_l. destruct b as [|c b]; simpl; [done | by rewrite Hb].
  - simpl in Ha. apply andb_prop in Ha as [Hc Ha].
    rewrite sapp_cons. simpl. by rewrite Hc, (IH Ha).
Qed.

Lemma all_chars_app (f : ascii -> bool) (a b : string) :
  all_chars f (a ++ b) = all_chars f a && all_chars f b.
Proof.
  induction a as [|c a IH]; [done|].
  rewrite sapp_cons. simpl. by rewrite IH, andb_assoc.
Qed.

Lemma all_chars_srev (f : ascii -> bool) (s : string) :
  all_chars f (srev s) = all_chars f s.
Proof.
  induction s as [|c s IH]; [done|].
  rewrite srev_cons, all_chars_app, IH. simpl.
  rewrite andb_true_r. apply andb_comm.
Qed.

Lemma is_empty_srev (s : string) : is_empty (srev s) = is_empty s.
Proof.
  destruct s as [|c s]; [done|].
  rewrite srev_cons. by destruct (srev s).
Qed.

Lemma is_empty_true (s : string) : is_empty s = true <-> s = "".
Proof. by destruct s. Qed.

End TextFacts.

(** ** The offline cache worker *)

Section WorkerFacts.
Import Text SW.

Lemma image_key_decorated (U ds : string) :
  is_digits ds = true -> image_key (U ++ image_decoration ds) = U.
Proof.
  unfold is_digits, image_key, image_decoration. intros H.
  apply andb_prop in H as [Hne Hds].
  replace (srev (U ++ "-" ++ ds ++ "px.jpg"))
    with (srev "px.jpg" ++ (srev ds ++ String "-" (srev U))).
  2:{ rewrite !srev_app, !sapp_assoc. reflexivity. }
  rewrite strip_prefix_app.
  rewrite (span_app is_digit (srev ds) (String "-" (srev U))).
  - rewrite is_empty_srev. destruct (is_empty ds); [done|].
    apply srev_involutive.
  - by rewrite all_chars_srev.
  - done.
Qed.

Lemma image_key_changes (k : string) :
  image_key k <> k ->
  exists U ds, is_digits ds = true /\ k = U ++ image_decoration ds.
Proof.
  unfold image_key. intros H.
  destruct (strip_prefix (srev "px.jpg") (srev k)) as [r|] eqn:E; [|done].
  apply strip_prefix_Some in E.
  destruct (span is_digit r) as [ds r'] eqn:Es.
  apply span_spec in Es as (-> & Hds & _).
  destruct (is_empty ds) eqn:Hne; [done|].
  destruct r' as [|c p]; [done|].
  destruct (Ascii.eqb_spec c "-"%char) as [->|Hc].
  2:{ exfalso. apply H.
      destruct c as [[] [] [] [] [] [] [] []]; try done. }
  exists (srev p), (srev ds). split.
  - unfold is_digits. by rewrite is_empty_srev, all_chars_srev, Hne, Hds.
  - rewrite <- (srev_involutive k), E. unfold image_decoration.
    rewrite !srev_app, srev_cons, !sapp_assoc. reflexivity.
Qed.

Lemma script_key_decorated (U : string) (d : ascii) :
  is_digit d = true -> script_key (U ++ script_decoration d) = U.
Proof.
  unfold script_key, script_decoration. intros H.
  replace (srev (U ++ "-" ++ String d "x.js"))
    with (srev "x.js" ++ String d (String "-" (srev U))).
  2:{ change (String d "x.js") with (String d "" ++ "x.js").
      rewrite !srev_app, !sapp_assoc. reflexivity. }
  rewrite strip_prefix_app, H. apply srev_involutive.
Qed.

Context {response : Type}.
Implicit Types (cs : cache_storage response) (w : world response).

Lemma lookup_cache_app n cs cs' :
  lookup_cache response n (cs ++ cs')%list
  = match lookup_cache response n cs with
    | Some c => Some c
    | None => lookup_cache response n cs'
    end.
Proof.
  induction cs as [|[m c] cs IH]; simpl; [done|].
  by destruct (String.eqb m n).
Qed.

Lemma lookup_put_in n name key r cs :
  lookup_cache response n (put_in response name key r cs)
  = if String.eqb name n
    then <[key := r]> <$> lookup_cache response name cs
    else lookup_cache response n cs.
Proof.
  induction cs as [|[m c] cs IH]; simpl.
  - by destruct (String.eqb name n).
  - destruct (String.eqb m name) eqn:Em; simpl.
    + apply String.eqb_eq in Em as ->.
      by destruct (String.eqb name n).
    + rewrite IH. destruct (String.eqb name n) eqn:En; [|done].
      apply String.eqb_eq in En as ->. by rewrite ?Em.
Qed.

(** Opening a cache creates it empty when it is missing, and changes no
    other cache. *)
Lemma lookup_caches_open n name w :
  lookup_cache response n (caches (snd (caches_open response name w)))
  = if String.eqb name n
    then Some (default ∅ (lookup_cache response name (caches w)))
    else lookup_cache response n (caches w).
Proof.
  unfold caches_open, has_cache. simpl.
  destruct (lookup_cache response name (caches w)) as [c|] eqn:E; simpl.
  - destruct (String.eqb_spec name n) as [->|]; [by rewrite E | done].
  - rewrite lookup_cache_app. simpl.
    destruct (String.eqb_spec name n) as [->|]; [by rewrite E|].
    by destruct (lookup_cache response n (caches w)).
Qed.

Lemma fetched_caches_open name w :
  fetched (snd (caches_open response name w)) = fetched w.
Proof. unfold caches_open. simpl. by destruct (has_cache _ _ _). Qed.

Lemma caches_open_existing name w c :
  lookup_cache response name (caches w) = Some c ->
  caches_open response name w = (Resolved name, w).
Proof. unfold caches_open, has_cache. by intros ->. Qed.

End WorkerFacts.

Section WorkerTheorems.
Import Text SW.
Context {response : Type}.
Implicit Types (w : world response) (network : string -> option response).

Lemma caches_open_eq name w :
  caches_open response name w
  = (Resolved name, snd (caches_open response name w)).
Proof. reflexivity. Qed.

Lemma entry_caches_open name key w :
  entry response name key (caches (snd (caches_open response name w)))
  = entry response name key (caches w).
Proof.
  unfold entry. rewrite lookup_caches_open, String.eqb_refl.
  by destruct (lookup_cache response name (caches w)).
Qed.

(** What [serveScript] does, in one equation: the cache is opened, the
    network is asked whatever the lookup found, and the answer is stored. *)
Lemma serveScript_unfold network req w :
  serveScript response network req w
  = let w1 := snd (caches_open response contentImgsCache w) in
    match network (url req) with
    | Some r =>
        (Resolved r,
         {| caches := put_in response contentImgsCache
                        (script_key (url req)) r (caches w1);
            fetched := (fetched w1 ++ [url req])%list |})
    | None =>
        (Rejected,
         {| caches := caches w1;
            fetched := (fetched w1 ++ [url req])%list |})
    end.
Proof.
  unfold serveScript, then_. rewrite caches_open_eq.
  set (w1 := snd (caches_open response contentImgsCache w)).
  unfold cache_match, resolve, fetch, cache_put. simpl.
  destruct (entry _ _ _ _); simpl; by destruct (network (url req)).
Qed.

Lemma serveImg_hit network req w r :
  entry response contentImgsCache (image_key (url req)) (caches w) = Some r ->
  serveImg response network req w = (Resolved r, w).
Proof.
  intros H. unfold serveImg, then_.
  assert (exists c, lookup_cache response contentImgsCache (caches w) = Some c)
    as [c Hc].
  { unfold entry in H. destruct (lookup_cache _ _ _); [eauto | done]. }
  rewrite (caches_open_existing _ _ _ Hc).
  unfold cache_match. simpl. by rewrite H.
Qed.

Lemma serveImg_miss network req w :
  entry response contentImgsCache (image_key (url req)) (caches w) = None ->
  serveImg response network req w
  = let w1 := snd (caches_open response contentImgsCache w) in
    match network (url req) with
    | Some r =>
        (Resolved r,
         {| caches := put_in response contentImgsCache
                        (image_key (url req)) r (caches w1);
            fetched := (fetched w1 ++ [url req])%list |})
    | None =>
        (Rejected,
         {| caches := caches w1;
            fetched := (fetched w1 ++ [url req])%list |})
    end.
Proof.
  intros H. unfold serveImg, then_. rewrite caches_open_eq.
  rewrite <- (entry_caches_open contentImgsCache) in H.
  set (w1 := snd (caches_open response contentImgsCache w)) in *.
  unfold cache_match. simpl. rewrite H.
  unfold fetch, cache_put, resolve.
  by destruct (network (url req)).
Qed.

Lemma entry_put_in name key r (cs : cache_storage response) :
  has_cache response name cs = true ->
  entry response name key (put_in response name key r cs) = Some r.
Proof.
  unfold entry, has_cache. rewrite lookup_put_in, String.eqb_refl.
  destruct (lookup_cache response name cs); [|done].
  intros _. simpl. apply lookup_insert_eq.
Qed.

Lemma has_cache_open name w :
  has_cache response name (caches (snd (caches_open response name w))) = true.
Proof.
  unfold has_cache. by rewrite lookup_caches_open, String.eqb_refl.
Qed.

Lemma scripts_not_other_routes (p : string) :
  startsWith p "/scripts/" = true ->
  String.eqb p "/" = false /\ startsWith p "/img/" = false.
Proof.
  intros H. apply startsWith_spec in H as [r ->]. done.
Qed.

End WorkerTheorems.

(** C3 (script-serving strategy).  For a same-origin request whose path
    starts with /scripts/ the fetch listener answers with [serveScript];
    the canonical key is the URL without a trailing -<digit>x.js; whatever
    the lookup of that key finds (the world [w] is arbitrary, so also when
    it holds an entry), exactly one live fetch of the original request is
    made; when the network answers, its response is stored under the
    canonical key and is the one returned; when it fails the promise
    rejects, and the cached entry is not used either. *)
Theorem serveScript_always_fetches :
  forall (response : Type) (network : string -> option response)
         (location_origin : string) (req : SW.request)
         (w : SW.world response),
    SW.origin req = location_origin ->
    Text.startsWith (SW.pathname req) "/scripts/" = true ->
    (forall U d, Text.is_digit d = true ->
       SW.script_key (U ++ SW.script_decoration d) = U)
    /\ SW.on_fetch response network location_origin req w
       = SW.some response (SW.serveScript response network req) w
    /\ let '(result, w') := SW.serveScript response network req w in
       SW.fetched w' = (SW.fetched w ++ [SW.url req])%list
       /\ match network (SW.url req) with
          | Some live =>
              result = SW.Resolved live
              /\ SW.entry response SW.contentImgsCache
                   (SW.script_key (SW.url req)) (SW.caches w') = Some live
          | None => result = SW.Rejected
          end.
Proof.
  intros response network loc req w Ho Hp.
  split; [intros U d; apply script_key_decorated|].
  split.
  - unfold SW.on_fetch, SW.route.
    destruct (scripts_not_other_routes _ Hp) as [H1 H2].
    by rewrite Ho, String.eqb_refl, H1, H2, Hp.
  - rewrite serveScript_unfold. cbv zeta.
    destruct (network (SW.url req)) as [live|];
      cbn [SW.fetched SW.caches]; rewrite fetched_caches_open;
      (split; [done|]); [|done].
    split; [done|]. apply entry_put_in, has_cache_open.
Qed.

Lemma serveScript_always_fetches_witness :
  fst (SW.serveScript nat Examples.online Examples.script_request
         Examples.script_cached)
  = SW.Resolved 2
  /\ SW.fetched
       (snd (SW.serveScript nat Examples.online Examples.script_request
               Examples.script_cached))
     = ["https://app.example/scripts/app-2x.js"].
Proof.
  pose proof (proj2 (proj2 (serveScript_always_fetches nat Examples.online
                              Examples.app Examples.script_request
                              Examples.script_cached eq_refl eq_refl))) as H.
  vm_compute in H. vm_compute.
  destruct H as (Hfetched & Hresult & _). split; [exact Hresult | exact Hfetched].
Defined.

(** C6 (root path).  A same-origin request for the path / is answered
    with the result of matching /skeleton in the caches, found or not; the
    world is left as it was, so no URL is fetched from the network,
    whatever the network would have answered. *)
Theorem root_is_served_from_the_shell :
  forall (response : Type) (network : string -> option response)
         (location_origin : string) (req : SW.request)
         (w : SW.world response),
    SW.origin req = location_origin ->
    SW.pathname req = "/" ->
    let '(result, w') := SW.on_fetch response network location_origin req w in
    result = SW.Resolved (SW.match_any response "/skeleton" (SW.caches w))
    /\ SW.fetched w' = SW.fetched w
    /\ w' = w.
Proof.
  intros response network loc req w Ho Hp.
  unfold SW.on_fetch, SW.route.
  rewrite Ho, Hp, String.eqb_refl. simpl. done.
Qed.

Lemma root_is_served_from_the_shell_witness :
  let '(result, w') :=
    SW.on_fetch nat Examples.offline Examples.app Examples.root_request
      Examples.shell_cached in
  result = SW.Resolved (Some 7)
  /\ SW.fetched w' = []
  /\ w' = Examples.shell_cached.
Proof.
  exact (root_is_served_from_the_shell nat Examples.offline Examples.app
           Examples.root_request Examples.shell_cached eq_refl eq_refl).
Defined.

Section ActivateFacts.
Import Text SW.
Context {response : Type}.
Implicit Types (cs : cache_storage response) (w : world response).

Lemma filter_ext_in {A} (P Q : A -> Prop)
    `{!forall x, Decision (P x), !forall x, Decision (Q x)} (l : list A) :
  (forall x, x ∈ l -> P x <-> Q x) -> filter P l = filter Q l.
Proof.
  induction l as [|a l IH]; intros Hext; [done|].
  rewrite !filter_cons.
  rewrite IH by (intros x Hx; apply Hext; by right).
  pose proof (Hext a (list_elem_of_here a l)) as Ha.
  destruct (decide (P a)), (decide (Q a)); try done; tauto.
Qed.

Lemma filter_all {A} (P : A -> Prop) `{!forall x, Decision (P x)} (l : list A) :
  (forall x, P x) -> filter P l = l.
Proof.
  intros Hall. induction l as [|a l IH]; [done|].
  by rewrite filter_cons_True, IH.
Qed.

(** Deleting a list of caches leaves those whose name is not listed. *)
Lemma all_caches_delete (l : list string) w :
  exists bs,
    all response (caches_delete response) l w
    = (Resolved bs,
       {| caches := filter (fun e => fst e ∉ l) (caches w);
          fetched := fetched w |}).
Proof.
  revert w. induction l as [|a l IH]; intros w.
  - exists []. simpl. unfold resolve. f_equal.
    destruct w as [cs fs]. simpl. f_equal. symmetry.
    apply filter_all. intros x. apply not_elem_of_nil.
  - simpl. unfold then_ at 1. unfold caches_delete at 1.
    set (w1 := {| caches := _; fetched := _ |}).
    destruct (IH w1) as [bs Hbs]. unfold then_ at 1. rewrite Hbs.
    eexists. unfold resolve. f_equal. subst w1. simpl. f_equal.
    unfold cache_storage. rewrite list_filter_filter. apply list_filter_iff.
    intros [n c]. simpl. rewrite not_elem_of_cons, negb_true_iff.
    rewrite String.eqb_neq. intuition congruence.
Qed.

Lemma on_activate_caches w :
  exists bs,
    on_activate response w
    = (Resolved bs,
       {| caches := filter (fun e => stale (fst e) = false) (caches w);
          fetched := fetched w |}).
Proof.
  unfold on_activate, then_, caches_keys.
  destruct (all_caches_delete
              (filter (fun n => stale n = true) (map fst (caches w))) w)
    as [bs ->].
  exists bs. do 2 f_equal. apply filter_ext_in.
  intros [n c] Hin. simpl. rewrite list_elem_of_filter.
  split.
  - intros H. destruct (stale n) eqn:E; [|done].
    exfalso. apply H. split; [done|].
    apply list_elem_of_fmap. by exists (n, c).
  - intros E [H _]. congruence.
Qed.

Lemma has_cache_filter (P : string -> bool) name cs :
  has_cache response name (filter (fun e => P (fst e) = false) cs)
  = has_cache response name cs && negb (P name).
Proof.
  unfold has_cache. induction cs as [|[n c] cs IH]; [done|].
  unfold cache_storage in *. rewrite filter_cons. simpl.
  destruct (decide (P n = false)) as [Hn|Hn]; simpl.
  - destruct (String.eqb_spec n name) as [->|]; [by rewrite Hn | done].
  - destruct (String.eqb_spec n name) as [->|]; [|done].
    rewrite IH. destruct (P name); [|done].
    by rewrite andb_false_r.
Qed.

Lemma stale_spec (name : string) :
  stale name = true
  <-> (exists rest, name = "basic-" ++ rest)
      /\ name <> "basic-static-v1" /\ name <> "basic-content-imgs".
Proof.
  unfold stale, allCaches, staticCacheName, contentImgsCache.
  rewrite andb_true_iff, startsWith_spec, negb_true_iff.
  rewrite bool_decide_eq_false, !not_elem_of_cons.
  pose proof (not_elem_of_nil name). tauto.
Qed.

End ActivateFacts.

(** C5 (activation).  Activation deletes exactly the caches that are
    stale: an existing cache survives when its name is not stale, keeping
    its place and its content, and a name is stale exactly when it starts
    with basic- and is neither basic-static-v1 nor basic-content-imgs.
    From the caches basic-static-v1, basic-static-v0 and other-app-cache
    only basic-static-v0 is deleted.  Nothing is fetched. *)
Theorem activate_deletes_exactly_the_stale_caches :
  forall (response : Type) (w : SW.world response),
    (forall name,
       SW.stale name = true
       <-> (exists rest, name = "basic-" ++ rest)
           /\ name <> "basic-static-v1" /\ name <> "basic-content-imgs")
    /\ (let w' := snd (SW.on_activate response w) in
        SW.caches w'
        = filter (fun e => SW.stale (fst e) = false) (SW.caches w)
        /\ (forall name,
              SW.has_cache response name (SW.caches w')
              = SW.has_cache response name (SW.caches w)
                && negb (SW.stale name))
        /\ SW.fetched w' = SW.fetched w)
    /\ (forall c1 c0 other : gmap string response,
          SW.caches
            (snd (SW.on_activate response
                    {| SW.caches := [("basic-static-v1", c1);
                                     ("basic-static-v0", c0);
                                     ("other-app-cache", other)];
                       SW.fetched := [] |}))
          = [("basic-static-v1", c1); ("other-app-cache", other)]).
Proof.
  intros response w. split; [apply stale_spec|]. split.
  - destruct (on_activate_caches w) as [bs ->]. simpl.
    split; [done|]. split; [|done].
    intros name. apply has_cache_filter.
  - intros c1 c0 other.
    destruct (on_activate_caches
                {| SW.caches := [("basic-static-v1", c1);
                                 ("basic-static-v0", c0);
                                 ("other-app-cache", other)];
                   SW.fetched := [] |}) as [bs ->].
    reflexivity.
Qed.

(** C4, as stated, fails: the canonical key derived for a variant of the
    base URL .../img/photo-800px.jpg is that base URL, and normalizing
    this key again strips its own -800px.jpg. *)
Lemma image_key_not_idempotent :
  let U := "https://app.example/img/photo-800px.jpg" in
  SW.is_digits "40" = true
  /\ SW.image_key (U ++ SW.image_decoration "40") = U
  /\ SW.image_key (SW.image_key (U ++ SW.image_decoration "40"))
     <> SW.image_key (U ++ SW.image_decoration "40").
Proof. vm_compute. repeat split; discriminate. Qed.

(** C4, amended (image-serving strategy).  For every base URL [U] and
    every decoration -<digits>px.jpg the canonical key of the decorated
    URL is [U]; normalization leaves a key unchanged when the key does not
    itself end in such a decoration; and when serving one decorated
    variant misses the cache and the network answers, the response is
    stored under [U], so that serving any other decorated variant of [U]
    afterwards returns the stored response and leaves the world as it is:
    nothing is fetched, whatever the network would answer then. *)
Theorem image_variants_share_one_cache_entry :
  forall (response : Type) (U ds1 ds2 : string),
    SW.is_digits ds1 = true ->
    SW.is_digits ds2 = true ->
    SW.image_key (U ++ SW.image_decoration ds1) = U
    /\ (forall k,
          (forall U' ds, SW.is_digits ds = true ->
             k <> U' ++ SW.image_decoration ds) ->
          SW.image_key k = k)
    /\ (forall (network later : string -> option response)
               (req1 req2 : SW.request) (w : SW.world response)
               (live : response),
          SW.url req1 = U ++ SW.image_decoration ds1 ->
          SW.url req2 = U ++ SW.image_decoration ds2 ->
          SW.entry response SW.contentImgsCache U (SW.caches w) = None ->
          network (SW.url req1) = Some live ->
          let '(result1, w1) := SW.serveImg response network req1 w in
          result1 = SW.Resolved live
          /\ SW.fetched w1 = (SW.fetched w ++ [SW.url req1])%list
          /\ SW.entry response SW.contentImgsCache U (SW.caches w1)
             = Some live
          /\ SW.serveImg response later req2 w1 = (SW.Resolved live, w1)).
Proof.
  intros response U ds1 ds2 H1 H2.
  split; [by apply image_key_decorated|]. split.
  - intros k Hk. destruct (decide (SW.image_key k = k)) as [|Hne]; [done|].
    destruct (image_key_changes k Hne) as (U' & ds & Hds & ->).
    by destruct (Hk U' ds Hds).
  - intros network later req1 req2 w live Hu1 Hu2 Hmiss Hnet.
    rewrite serveImg_miss
      by (by rewrite Hu1, image_key_decorated).
    cbv zeta. rewrite Hnet, Hu1, image_key_decorated by done.
    cbn [SW.fetched SW.caches]. rewrite fetched_caches_open.
    assert (SW.entry response SW.contentImgsCache U
              (SW.put_in response SW.contentImgsCache U live
                 (SW.caches (snd (SW.caches_open response
                                    SW.contentImgsCache w))))
            = Some live) as Hentry
      by apply entry_put_in, has_cache_open.
    repeat split; try done.
    apply serveImg_hit. cbn [SW.caches].
    by rewrite Hu2, image_key_decorated.
Qed.

Lemma image_variants_share_one_cache_entry_witness :
  SW.image_key (SW.url Examples.photo_800) = Examples.photo
  /\ fst (SW.serveImg nat Examples.online Examples.photo_800
            Examples.no_caches)
     = SW.Resolved 2
  /\ SW.serveImg nat Examples.offline Examples.photo_40
       (snd (SW.serveImg nat Examples.online Examples.photo_800
               Examples.no_caches))
     = (SW.Resolved 2,
        snd (SW.serveImg nat Examples.online Examples.photo_800
               Examples.no_caches)).
Proof.
  destruct (image_variants_share_one_cache_entry nat Examples.photo
              "800" "40" eq_refl eq_refl) as (Hkey & _ & Hserve).
  split; [exact Hkey|].
  pose proof (Hserve Examples.online Examples.offline Examples.photo_800
                Examples.photo_40 Examples.no_caches 2
                eq_refl eq_refl eq_refl eq_refl) as H.
  vm_compute in H. vm_compute.
  destruct H as (Hresult & _ & _ & Hhit). split; [exact Hresult | exact Hhit].
Defined.

(** ** The page controller *)

(** C7 (reload guard).  On a platform with service workers, after the
    controller of a page is created, the first controllerchange event
    reloads the page once and sets the guard; an event after that changes
    nothing; so after two or more events the page has been reloaded
    exactly once. *)
Theorem controllerchange_reloads_once :
  forall (p : IndexController.page) (n : nat),
    IndexController.serviceWorker p = true ->
    IndexController.listeners p = [] ->
    let p0 := IndexController.IndexController p in
    let p1 := IndexController.controllerchange p0 in
    IndexController.listeners p0 = [false]
    /\ IndexController.reloads p1 = S (IndexController.reloads p)
    /\ IndexController.listeners p1 = [true]
    /\ IndexController.controllerchange p1 = p1
    /\ IndexController.reloads
         (Nat.iter (2 + n) IndexController.controllerchange p0)
       = S (IndexController.reloads p).
Proof.
  intros [sw reg dbs ls k] n Hsw Hls. simpl in Hsw, Hls. subst sw ls.
  cbv zeta.
  assert (forall q, IndexController.listeners q = [true] ->
                    IndexController.controllerchange q = q) as Hfix.
  { intros [sw' reg' dbs' ls' k'] Hq. simpl in Hq. subst ls'.
    unfold IndexController.controllerchange. simpl. f_equal. lia. }
  split; [done|]. split; [simpl; lia|]. split; [done|].
  split; [by apply Hfix|].
  change (2 + n) with (S (S n)). rewrite Nat.iter_succ_r.
  set (p1 := IndexController.controllerchange _).
  assert (Nat.iter (S n) IndexController.controllerchange p1 = p1) as ->.
  { induction n as [|n IH]; simpl in *; [by apply Hfix|].
    rewrite IH. by apply Hfix. }
  subst p1. simpl. lia.
Qed.

Lemma controllerchange_reloads_once_witness :
  IndexController.reloads
    (Nat.iter 2 IndexController.controllerchange
       (IndexController.IndexController Examples.new_page)) = 1.
Proof.
  exact (proj2 (proj2 (proj2 (proj2
           (controllerchange_reloads_once Examples.new_page 0
              eq_refl eq_refl))))).
Defined.

(** ** The component *)

Section ComponentFacts.
Import Text JS Markup BaseComponent.
Implicit Types (c : component) (e : element) (l : list event).

(** *** Readings of a log distribute over its parts *)

Lemma created_bound_app l1 l2 :
  created_bound (l1 ++ l2) = (created_bound l1 ++ created_bound l2)%list.
Proof. apply omap_app. Qed.

Lemma materializations_app l1 l2 :
  materializations (l1 ++ l2) = materializations l1 + materializations l2.
Proof. unfold materializations. by rewrite omap_app, length_app. Qed.


Lemma dispatched_app l1 l2 :
  dispatched (l1 ++ l2) = (dispatched l1 ++ dispatched l2)%list.
Proof. apply omap_app. Qed.

Lemma omap_none {A B} (f : A -> option B) (xs : list A) :
  Forall (fun x => f x = None) xs -> omap f xs = [].
Proof.
  induction 1 as [|x xs Hx _ IH]; [done|]. simpl. by rewrite Hx.
Qed.

(** *** Folds that only touch part of a component *)

Lemma fold_frame {A X} (f : component -> X) (g : component -> A -> component)
    (xs : list A) c :
  (forall c a, f (g c a) = f c) -> f (fold_left g xs c) = f c.
Proof.
  intros H. revert c. induction xs as [|a xs IH]; intros c; [done|].
  simpl. by rewrite IH.
Qed.

Lemma fold_log {A} (P : event -> Prop) (g : component -> A -> component)
    (xs : list A) c :
  (forall c a, exists evs, log (g c a) = (log c ++ evs)%list /\ Forall P evs) ->
  exists evs, log (fold_left g xs c) = (log c ++ evs)%list /\ Forall P evs.
Proof.
  intros H. revert c. induction xs as [|a xs IH]; intros c.
  - exists []. by rewrite app_nil_r.
  - simpl. destruct (IH (g c a)) as (evs2 & -> & H2).
    destruct (H c a) as (evs1 & -> & H1).
    exists (evs1 ++ evs2)%list. split; [by rewrite app_assoc|].
    by apply Forall_app.
Qed.

(** *** Assigning text *)

Lemma elements_app (ns1 ns2 : list node) :
  elements (ns1 ++ ns2) = (elements ns1 ++ elements ns2)%list.
Proof. apply omap_app. Qed.

Lemma elements_assign id text (ns : list node) :
  elements (map (assign_text id text) ns) = map (assign id text) (elements ns).
Proof.
  induction ns as [|[s|e] ns IH]; simpl; [done | done | by rewrite IH].
Qed.

Lemma shadow_elements_set_text id text c :
  shadow_elements (set_text id text c)
  = map (assign id text) (shadow_elements c).
Proof.
  unfold shadow_elements, set_text. simpl.
  destruct (shadowRoot c); simpl; [apply elements_assign | done].
Qed.

Lemma assign_id id text e : el_id (assign id text e) = el_id e.
Proof. unfold assign. by destruct (Nat.eqb _ _). Qed.

Lemma assign_tag id text e : el_tag (assign id text e) = el_tag e.
Proof. unfold assign. by destruct (Nat.eqb _ _). Qed.

Lemma set_texts_log els text c :
  log (set_texts els text c)
  = (log c ++ map (fun id => EvSetText id text) els)%list.
Proof.
  unfold set_texts. revert c.
  induction els as [|id els IH]; intros c; simpl.
  - by rewrite app_nil_r.
  - rewrite IH. simpl. by rewrite <- app_assoc.
Qed.

Lemma set_texts_ids els text c :
  map el_id (shadow_elements (set_texts els text c))
  = map el_id (shadow_elements c).
Proof.
  unfold set_texts. revert c.
  induction els as [|id els IH]; intros c; simpl; [done|].
  rewrite IH, shadow_elements_set_text, map_map.
  apply map_ext. intros e. apply assign_id.
Qed.

Lemma set_texts_tags els text c :
  map el_tag (shadow_elements (set_texts els text c))
  = map el_tag (shadow_elements c).
Proof.
  unfold set_texts. revert c.
  induction els as [|id els IH]; intros c; simpl; [done|].
  rewrite IH, shadow_elements_set_text, map_map.
  apply map_ext. intros e. apply assign_tag.
Qed.

(** After [set_texts], an element whose identity is listed shows the
    text, and the others are as they were. *)
Lemma set_texts_elements els text c e' :
  e' ∈ shadow_elements (set_texts els text c) ->
  exists e, e ∈ shadow_elements c
    /\ el_id e' = el_id e /\ el_tag e' = el_tag e
    /\ (el_id e ∈ els -> el_text e' = Some text)
    /\ (el_id e ∉ els -> e' = e).
Proof.
  unfold set_texts. revert c e'.
  induction els as [|id els IH]; intros c e' H; simpl in H.
  - exists e'. repeat split; try done. intros Hin. by apply elem_of_nil in Hin.
  - destruct (IH _ _ H) as (e1 & He1 & Hid & Htag & Hin & Hout).
    rewrite shadow_elements_set_text in He1.
    apply list_elem_of_fmap in He1 as (e & -> & He).
    exists e. rewrite assign_id in *. rewrite assign_tag in *.
    repeat split; try done.
    + intros Hel. destruct (decide (el_id e ∈ els)) as [|Hn]; [by apply Hin|].
      rewrite (Hout Hn). apply elem_of_cons in Hel as [Heq|]; [|done].
      unfold assign. rewrite Heq, Nat.eqb_refl. done.
    + intros Hel. apply not_elem_of_cons in Hel as [Hne Hn].
      rewrite (Hout Hn). unfold assign.
      by rewrite (proj2 (Nat.eqb_neq _ _) Hne).
Qed.

(** *** Fields the text assignments leave alone *)

Lemma set_texts_frame {X} (f : component -> X) els text c :
  (forall id c, f (set_text id text c) = f c) ->
  f (set_texts els text c) = f c.
Proof. intros H. unfold set_texts. apply fold_frame. intros. apply H. Qed.

Lemma set_texts_props els text c : props (set_texts els text c) = props c.
Proof. by apply set_texts_frame. Qed.

Lemma set_texts_initialized els text c :
  initialized (set_texts els text c) = initialized c.
Proof. by apply set_texts_frame. Qed.

Lemma set_texts_bindings els text c :
  bindings (set_texts els text c) = bindings c.
Proof. by apply set_texts_frame. Qed.

Lemma set_texts_next_id els text c :
  next_id (set_texts els text c) = next_id c.
Proof. by apply set_texts_frame. Qed.

Lemma set_texts_shadow_some els text c :
  is_Some (shadowRoot (set_texts els text c)) <-> is_Some (shadowRoot c).
Proof.
  unfold set_texts. revert c.
  induction els as [|id els IH]; intros c; simpl; [done|].
  rewrite IH. simpl. apply fmap_is_Some.
Qed.

(** *** The proxy and updateBindings, once the component is rendered *)

Lemma updateBindings_rendered key c :
  rendered c -> is_empty key = false ->
  updateBindings (Some key) c
  = set_texts (default [] (bindings_get key (bindings c)))
      (display (get (props c) key)) c.
Proof.
  intros [Hi [ns Hs]] Hk. unfold updateBindings. by rewrite Hs, Hi, Hk.
Qed.

Lemma props_set_rendered key v c :
  rendered c -> is_empty key = false ->
  props_set key v c
  = set_texts (default [] (bindings_get key (bindings c))) (display v)
      (with_props (<[key := v]> (props c)) c).
Proof.
  intros Hr Hk. unfold props_set.
  assert (rendered (with_props (<[key := v]> (props c)) c)) as Hr'
    by (destruct Hr; done).
  destruct Hr as [Hi _]. simpl. rewrite Hi.
  rewrite updateBindings_rendered by done. simpl.
  unfold get. by rewrite lookup_insert_eq.
Qed.

Lemma props_set_unrendered key v c :
  initialized c = false ->
  props_set key v c = with_props (<[key := v]> (props c)) c.
Proof. intros Hi. unfold props_set. simpl. by rewrite Hi. Qed.

Lemma set_texts_rendered els text c :
  rendered c -> rendered (set_texts els text c).
Proof.
  intros [Hi Hs]. split.
  - by rewrite set_texts_initialized.
  - by apply set_texts_shadow_some.
Qed.

(** *** ensureStyles *)

Lemma ensure_style_frame {X} (f : component -> X) c s :
  (forall evs a sr c,
     f (emit_log evs (with_styleAdded a (with_shadow sr c))) = f c) ->
  f (ensure_style c s) = f c.
Proof.
  intros H. unfold ensure_style. destruct (decide _); [done | apply H].
Qed.

Lemma ensureStyles_frame {X} (f : component -> X) c :
  (forall c s, f (ensure_style c s) = f c) -> f (ensureStyles c) = f c.
Proof.
  intros H. unfold ensureStyles.
  destruct (shadowRoot c), (styles c); try done. by apply fold_frame.
Qed.

Lemma ensure_style_elements c s :
  shadow_elements (ensure_style c s) = shadow_elements c.
Proof.
  unfold ensure_style, shadow_elements. destruct (decide _); [done|].
  simpl. destruct (shadowRoot c); simpl; [|done].
  by rewrite elements_app, app_nil_r.
Qed.

Lemma ensure_style_shadow_some c s :
  is_Some (shadowRoot (ensure_style c s)) <-> is_Some (shadowRoot c).
Proof.
  unfold ensure_style. destruct (decide _); [done|]. simpl. apply fmap_is_Some.
Qed.

Lemma fold_iff {A} (P : component -> Prop) (g : component -> A -> component)
    (xs : list A) c :
  (forall c a, P (g c a) <-> P c) -> P (fold_left g xs c) <-> P c.
Proof.
  intros H. revert c. induction xs as [|a xs IH]; intros c; [done|].
  simpl. by rewrite IH.
Qed.

Lemma ensureStyles_shadow_some c :
  is_Some (shadowRoot (ensureStyles c)) <-> is_Some (shadowRoot c).
Proof.
  unfold ensureStyles.
  destruct (shadowRoot c) eqn:E, (styles c); try (by rewrite E).
  rewrite <- E.
  apply (fold_iff (fun c => is_Some (shadowRoot c))).
  intros. apply ensure_style_shadow_some.
Qed.

Lemma ensureStyles_elements c :
  shadow_elements (ensureStyles c) = shadow_elements c.
Proof. apply ensureStyles_frame, ensure_style_elements. Qed.

Lemma ensureStyles_log c :
  exists evs, log (ensureStyles c) = (log c ++ evs)%list /\ Forall is_style evs.
Proof.
  unfold ensureStyles.
  destruct (shadowRoot c), (styles c);
    try (exists []; by rewrite app_nil_r).
  apply fold_log. intros c' s. unfold ensure_style.
  destruct (decide _).
  - exists []. by rewrite app_nil_r.
  - eexists. split; [reflexivity|]. by repeat constructor.
Qed.

Lemma style_node_of_inj c s1 s2 :
  style_node_of c s1 = style_node_of c s2 -> s1 = s2.
Proof.
  unfold style_node_of. by repeat destruct (decide _); intros [=].
Qed.

Lemma ensure_style_mirror c s added :
  is_Some (shadowRoot c) ->
  styles_mirror c added ->
  styles_mirror (ensure_style c s)
    (if decide (s ∈ added) then added else added ++ [s])%list.
Proof.
  intros [ns Hs] (Hnd & Hin & Hns). unfold ensure_style.
  destruct (decide (s ∈ styleAdded c)) as [Ha|Ha].
  - destruct (decide (s ∈ added)) as [Hd|Hd]; [|by apply Hin in Ha].
    done.
  - destruct (decide (s ∈ added)) as [Hd|Hd]; [by apply Hin in Hd|].
    split; [|split].
    + apply NoDup_app. split; [done|]. split; [|apply NoDup_singleton].
      intros x Hx Hx'. apply list_elem_of_singleton in Hx' as ->.
      by apply Ha, Hin.
    + intros x. simpl. rewrite elem_of_app, list_elem_of_singleton.
      rewrite elem_of_union, elem_of_singleton, Hin. tauto.
    + unfold shadow_styles in *. simpl. rewrite Hs in *. simpl.
      unfold style_nodes in *. rewrite omap_app, map_app, Hns. done.
Qed.

(** From a shadow root without styles, [ensureStyles] injects every
    configured style once: as a link when it is a path, as a style element
    otherwise. *)
Lemma ensureStyles_mirror c :
  shadowRoot c = Some [] -> styleAdded c = ∅ ->
  exists added,
    styles_mirror (ensureStyles c) added
    /\ forall s, s ∈ added <-> s ∈ default [] (styles c).
Proof.
  intros Hs Ha.
  assert (styles_mirror c []) as H0.
  { split; [constructor|]. split.
    - intros s. rewrite Ha. split; [by intros ?%elem_of_nil | set_solver].
    - unfold shadow_styles. by rewrite Hs. }
  unfold ensureStyles. rewrite Hs.
  destruct (styles c) as [ss|]; simpl.
  2:{ exists []. done. }
  assert (forall xs c1 added1,
            is_Some (shadowRoot c1) ->
            styles_mirror c1 added1 ->
            exists added2,
              styles_mirror (fold_left ensure_style xs c1) added2
              /\ forall s, s ∈ added2 <-> s ∈ added1 \/ s ∈ xs) as Hgen.
  { induction xs as [|s xs IH]; intros c1 added1 Hs1 H1; simpl.
    - exists added1. split; [done|]. intros s. rewrite elem_of_nil. tauto.
    - destruct (IH _ _ (proj2 (ensure_style_shadow_some c1 s) Hs1)
                  (ensure_style_mirror c1 s added1 Hs1 H1))
        as (added2 & H2 & Hin2).
      exists added2. split; [done|]. intros x. rewrite Hin2, elem_of_cons.
      destruct (decide (s ∈ added1)) as [Hd|Hd].
      + split; [tauto|]. intros [?|[->|?]]; tauto.
      + rewrite elem_of_app, list_elem_of_singleton. tauto. }
  destruct (Hgen ss c [] (ltac:(by rewrite Hs)) H0) as (added & H & Hin).
  exists added. split; [done|]. intros s. rewrite Hin, elem_of_nil. tauto.
Qed.

(** *** The template call *)

Lemma call_template_snd document t c :
  exists evs,
    snd (call_template document t c) = emit_log evs c
    /\ materializations evs = 1 /\ created_bound evs = []
    /\ dispatched evs = [] /\ (forall id, texts_of id evs = []).
Proof.
  unfold call_template.
  destruct t as [f| | |h]; simpl;
    try (by exists [EvTemplate]).
  destruct (document !! default "" (templateId c)); simpl.
  - by exists [EvTemplate].
  - eexists [EvTemplate; EvWarn _]. split; [|done].
    unfold emit_log. simpl. f_equal. by rewrite <- app_assoc.
Qed.

Lemma call_template_fst document t c1 c2 :
  props c1 = props c2 -> templateId c1 = templateId c2 ->
  fst (call_template document t c1) = fst (call_template document t c2).
Proof.
  intros Hp Hi. unfold call_template. rewrite Hp, Hi.
  destruct t; simpl; try done.
  by destruct (document !! default "" (templateId c2)).
Qed.

(** *** Parsing markup into the shadow root *)

Lemma instantiate_styles id (ns : list node) bs :
  elements ns = [] ->
  instantiate id (map serialize ns ++ bs) = (ns ++ instantiate id bs)%list.
Proof.
  induction ns as [|[s|e] ns IH]; intros H; simpl in *; [done| |done].
  by rewrite IH.
Qed.

Lemma fresh_elements_cons id t tags :
  fresh_elements id (t :: tags)
  = {| el_id := id; el_tag := t; el_text := None |}
    :: fresh_elements (S id) tags.
Proof.
  unfold fresh_elements. rewrite imap_cons, Nat.add_0_r. f_equal.
  apply imap_ext. intros i x _. simpl. f_equal. lia.
Qed.

Lemma instantiate_fresh id tags :
  instantiate id (map (fun t => BElem t None) tags)
  = map NElem (fresh_elements id tags).
Proof.
  revert id. induction tags as [|t tags IH]; intros id; [done|].
  rewrite fresh_elements_cons. simpl. by rewrite IH.
Qed.

Lemma elements_NElem (es : list element) : elements (map NElem es) = es.
Proof. induction es as [|e es IH]; simpl; [done | by rewrite IH]. Qed.

Lemma style_nodes_NElem (es : list element) : style_nodes (map NElem es) = [].
Proof. induction es as [|e es IH]; simpl; [done | by rewrite IH]. Qed.

Lemma fresh_elements_ids id tags :
  map el_id (fresh_elements id tags) = seq id (length tags).
Proof.
  revert id. induction tags as [|t tags IH]; intros id; [done|].
  rewrite fresh_elements_cons. simpl. by rewrite IH.
Qed.


Lemma fresh_elements_text id tags e :
  e ∈ fresh_elements id tags -> el_text e = None.
Proof.
  revert id. induction tags as [|t tags IH]; intros id.
  - by intros ?%elem_of_nil.
  - rewrite fresh_elements_cons. intros [->|H]%elem_of_cons; [done|].
    by apply (IH (S id)).
Qed.

Lemma append_markup_shadow processed c (ns : list node) :
  shadowRoot c = Some ns -> elements ns = [] ->
  shadowRoot (append_markup processed c)
  = Some (ns ++ map NElem (fresh_elements (next_id c) (parse processed)))%list.
Proof.
  intros Hs He. unfold append_markup. rewrite Hs. simpl.
  by rewrite instantiate_styles, instantiate_fresh.
Qed.

Lemma append_markup_log processed c (ns : list node) :
  shadowRoot c = Some ns -> elements ns = [] ->
  log (append_markup processed c)
  = (log c ++ map created (fresh_elements (next_id c) (parse processed)))%list.
Proof.
  intros Hs He. unfold append_markup. rewrite Hs. simpl.
  rewrite instantiate_styles, instantiate_fresh by done.
  by rewrite elements_app, He, elements_NElem.
Qed.

Lemma append_markup_frame {X} (f : component -> X) processed c :
  (forall evs n sr c, f (emit_log evs (with_next_id n (with_shadow sr c))) = f c) ->
  f (append_markup processed c) = f c.
Proof.
  intros H. unfold append_markup. destruct (shadowRoot c); [apply H | done].
Qed.

(** *** bindActions *)

Lemma bindActions_frame {X} (f : component -> X) c :
  (forall evs c, f (emit_log evs c) = f c) -> f (bindActions c) = f c.
Proof.
  intros H. unfold bindActions. destruct (shadowRoot c); [|done].
  apply fold_frame. intros c' e. unfold bind_element_actions.
  destruct (el_attr _ e); [|done].
  apply fold_frame. intros. apply H.
Qed.

Lemma bindActions_log c :
  exists evs, log (bindActions c) = (log c ++ evs)%list /\ Forall is_action evs.
Proof.
  unfold bindActions.
  destruct (shadowRoot c); [|exists []; by rewrite app_nil_r].
  apply fold_log. intros c' e. unfold bind_element_actions.
  destruct (el_attr _ e); [|exists []; by rewrite app_nil_r].
  apply fold_log. intros c'' a. eexists. split; [reflexivity|].
  constructor; [|constructor].
  unfold action_event. by destruct (_ && _).
Qed.

(** *** Binding the marker elements *)

Lemma bind_element_eq c e :
  bind_element c e
  = match bound_key (el_tag e) with
    | Some key =>
        set_text (el_id e) (display (get (props c) key))
          (with_bindings (bindings_push key (el_id e) (bindings c)) c)
    | None => c
    end.
Proof.
  unfold bind_element, bound_key, el_attr.
  destruct (lookup_attr _ _) as [key|]; [|done]. by destruct (is_empty key).
Qed.

Lemma bind_element_frame {X} (f : component -> X) c e :
  (forall id text b c, f (set_text id text (with_bindings b c)) = f c) ->
  f (bind_element c e) = f c.
Proof.
  intros H. rewrite bind_element_eq. destruct (bound_key _); [apply H | done].
Qed.

Lemma fold_filter_skip {A} (g : component -> A -> component) (P : A -> Prop)
    `{!forall a, Decision (P a)} (xs : list A) c :
  (forall c a, ~ P a -> g c a = c) ->
  fold_left g (filter P xs) c = fold_left g xs c.
Proof.
  intros Hskip. revert c. induction xs as [|a xs IH]; intros c; [done|].
  rewrite filter_cons. destruct (decide (P a)) as [Hp|Hp]; simpl.
  - apply IH.
  - by rewrite IH, (Hskip c a Hp).
Qed.

Lemma fold_bound_elements c (es : list element) :
  fold_left bind_element (filter (fun e => has_attr "data-bind" e = true) es) c
  = fold_left bind_element es c.
Proof.
  apply fold_filter_skip. intros c' e He. unfold bind_element.
  unfold has_attr in He. by destruct (el_attr _ e).
Qed.

Lemma map_assign_notin id text (es : list element) :
  id ∉ map el_id es -> map (assign id text) es = es.
Proof.
  induction es as [|e es IH]; intros H; [done|].
  simpl in *. apply not_elem_of_cons in H as [Hne H].
  rewrite (IH H). f_equal. unfold assign.
  by rewrite (proj2 (Nat.eqb_neq _ _)) by congruence.
Qed.

Lemma fold_bind_bindings (es : list element) c :
  bindings (fold_left bind_element es c)
  = fold_left
      (fun b e =>
         match bound_key (el_tag e) with
         | Some key => bindings_push key (el_id e) b
         | None => b
         end) es (bindings c).
Proof.
  revert c. induction es as [|e es IH]; intros c; [done|].
  simpl. rewrite IH, bind_element_eq. by destruct (bound_key _).
Qed.

Lemma fold_bind_props (es : list element) c :
  props (fold_left bind_element es c) = props c.
Proof. apply fold_frame. intros. by apply bind_element_frame. Qed.

Lemma fold_bind_log (es : list element) c :
  log (fold_left bind_element es c)
  = (log c
     ++ omap (fun e =>
                (fun key => EvSetText (el_id e) (display (get (props c) key)))
                  <$> bound_key (el_tag e)) es)%list.
Proof.
  revert c. induction es as [|e es IH]; intros c; simpl.
  - by rewrite app_nil_r.
  - rewrite IH. rewrite (bind_element_frame props) by done.
    rewrite bind_element_eq.
    destruct (bound_key _); simpl; [by rewrite <- app_assoc | done].
Qed.

(** The elements after the marker elements [es] were bound: each shows
    the current value of its key; [pre] are the elements before them. *)
Lemma fold_bind_shadow (es pre : list element) c :
  shadow_elements c = (pre ++ es)%list ->
  NoDup (map el_id (pre ++ es)) ->
  shadow_elements (fold_left bind_element es c)
  = (pre
     ++ map (fun e =>
               match bound_key (el_tag e) with
               | Some key => assign (el_id e) (display (get (props c) key)) e
               | None => e
               end) es)%list.
Proof.
  revert pre c. induction es as [|e es IH]; intros pre c Hsh Hnd; [done|].
  simpl.
  set (e' := match bound_key (el_tag e) with
             | Some key => assign (el_id e) (display (get (props c) key)) e
             | None => e
             end).
  assert (el_id e' = el_id e) as Hid.
  { subst e'. destruct (bound_key _); [apply assign_id | done]. }
  assert (shadow_elements (bind_element c e) = ((pre ++ [e']) ++ es)%list)
    as Hsh'.
  { rewrite bind_element_eq. subst e'. rewrite <- app_assoc. simpl.
    destruct (bound_key (el_tag e)) as [key|]; [|done].
    rewrite shadow_elements_set_text. simpl.
    change (shadow_elements (with_bindings _ c)) with (shadow_elements c).
    rewrite Hsh, map_app. simpl.
    rewrite map_app, map_cons in Hnd.
    apply NoDup_app in Hnd as (_ & Hdisj & Hnd).
    apply NoDup_cons in Hnd as [Hne _].
    rewrite !map_assign_notin; [done | done |].
    intros Hin. apply (Hdisj _ Hin). by left. }
  rewrite (IH (pre ++ [e'])%list (bind_element c e) Hsh').
  - rewrite <- app_assoc. simpl.
    by rewrite (bind_element_frame props) by done.
  - rewrite <- app_assoc. simpl.
    rewrite !map_app in *. simpl in *. by rewrite Hid.
Qed.

(** *** Events that do not count *)

Lemma silent {B} (P : event -> Prop) (f : event -> option B) l :
  Forall P l -> (forall ev, P ev -> f ev = None) -> omap f l = [].
Proof.
  intros Hl Hf. apply omap_none. eapply Forall_impl; [exact Hl | exact Hf].
Qed.

(** Style, text and action events are no template call, create no
    element and dispatch nothing. *)
Lemma other_events_read (P : event -> Prop) l :
  Forall P l ->
  (forall ev, P ev -> is_style ev \/ is_text ev \/ is_action ev) ->
  materializations l = 0 /\ created_bound l = [] /\ dispatched l = [].
Proof.
  intros Hl HP. unfold materializations, created_bound, dispatched.
  rewrite !(silent P _ l Hl); [done| | |];
    intros [] Hev; try done; by destruct (HP _ Hev) as [?|[?|?]].
Qed.

Lemma bound_texts_are_texts (p : gmap string value) (es : list element) :
  Forall is_text
    (omap (fun e =>
             (fun key => EvSetText (el_id e) (display (get p key)))
               <$> bound_key (el_tag e)) es).
Proof.
  apply Forall_forall. intros ev Hev.
  apply list_elem_of_omap in Hev as (e & _ & He).
  destruct (bound_key _); simpl in He; by inversion He.
Qed.

Lemma created_bound_created (es : list element) :
  created_bound (map created es)
  = omap (fun e => (fun key => (el_id e, key)) <$> el_attr "data-bind" e) es.
Proof.
  unfold created_bound. induction es as [|e es IH]; [done|].
  cbn [map omap list_omap]. rewrite IH. unfold created.
  by destruct (el_attr _ e).
Qed.

Lemma shadow_styles_set_text id text c :
  shadow_styles (set_text id text c) = shadow_styles c.
Proof.
  unfold shadow_styles, set_text. simpl.
  destruct (shadowRoot c) as [ns|]; [|done]. simpl.
  induction ns as [|[s|e] ns IH]; simpl; [done | by rewrite IH | done].
Qed.

(** *** The first render *)

Lemma render_first document c t :
  shadowRoot c = Some [] -> templateFn c = Some t ->
  initialized c = false -> bindings c = [] ->
  let tags := parse (replace_placeholders (fst (call_template document t c))) in
  let els := fresh_elements (next_id c) tags in
  let c' := render document c in
  rendered c' /\ props c' = props c
  /\ bindings c' = bind_table els
  /\ shadow_elements c'
     = map (fun e => {| el_id := el_id e; el_tag := el_tag e;
                        el_text := bound_text (props c) (el_tag e) |}) els
  /\ (styleAdded c = ∅ ->
      exists added, styles_mirror c' added
        /\ forall s, s ∈ added <-> s ∈ default [] (styles c))
  /\ exists evs,
       log c' = (log c ++ evs)%list
       /\ materializations evs = 1
       /\ created_bound evs
          = omap (fun e => (fun key => (el_id e, key))
                             <$> el_attr "data-bind" e) els
       /\ dispatched evs = [].
Proof.
  intros Hs Ht Hi Hb tags els c'.
  (* the styles *)
  set (cS := ensureStyles c).
  assert (exists nsS, shadowRoot cS = Some nsS /\ elements nsS = [])
    as (nsS & HsS & HeS).
  { assert (is_Some (shadowRoot cS)) as [nsS HnsS]
      by (apply ensureStyles_shadow_some; by rewrite Hs).
    exists nsS. split; [done|].
    pose proof (ensureStyles_elements c) as He.
    unfold shadow_elements in He. fold cS in He. by rewrite HnsS, Hs in He. }
  destruct (ensureStyles_log c) as (evsS & HlS & HkS). fold cS in HlS.
  (* the template *)
  destruct (call_template_snd document t cS)
    as (evsT & HcT & HmT & HcrT & HdT & HtT).
  assert (fst (call_template document t cS)
          = fst (call_template document t c)) as Hraw.
  { apply call_template_fst; unfold cS; apply ensureStyles_frame;
      intros; by apply ensure_style_frame. }
  (* the markup *)
  set (c2 := emit_log evsT cS) in *.
  set (c3 := append_markup (replace_placeholders
                              (fst (call_template document t c))) c2).
  assert (next_id c2 = next_id c) as Hn2
    by (unfold c2, cS; simpl; apply ensureStyles_frame; intros; by apply ensure_style_frame).
  assert (props c3 = props c) as Hp3.
  { unfold c3. rewrite (append_markup_frame props) by done.
    unfold c2, cS. simpl. apply ensureStyles_frame; intros; by apply ensure_style_frame. }
  assert (shadowRoot c3 = Some (nsS ++ map NElem els)%list) as Hs3.
  { unfold c3. rewrite (append_markup_shadow _ c2 nsS) by done.
    by rewrite Hn2. }
  assert (shadow_elements c3 = els) as He3.
  { unfold shadow_elements. by rewrite Hs3, elements_app, HeS, elements_NElem. }
  assert (bindings c3 = []) as Hb3.
  { unfold c3. rewrite (append_markup_frame bindings) by done.
    unfold c2, cS. simpl. rewrite <- Hb.
    apply ensureStyles_frame; intros; by apply ensure_style_frame. }
  (* the bindings *)
  set (c4 := fold_left bind_element els c3).
  assert (c' = with_initialized true (bindActions c4)) as Hc'.
  { unfold c', render. rewrite Hs, Ht, Hi. simpl. fold cS.
    destruct (call_template document t cS) as [rawHtml c2'] eqn:Ect.
    simpl in Hraw, HcT. subst rawHtml c2'. fold c2. fold c3.
    by rewrite He3, fold_bound_elements. }
  assert (shadow_elements c4
          = map (fun e => {| el_id := el_id e; el_tag := el_tag e;
                             el_text := bound_text (props c) (el_tag e) |})
              els) as He4.
  { unfold c4. rewrite (fold_bind_shadow els [] c3) by
      (simpl; try done; unfold els; rewrite fresh_elements_ids;
       apply NoDup_seq).
    simpl. rewrite Hp3. apply map_ext_in. intros e He.
    apply list_elem_of_In, fresh_elements_text in He.
    unfold bound_text. destruct (bound_key (el_tag e)) as [key|]; simpl.
    - unfold assign. by rewrite Nat.eqb_refl.
    - destruct e. simpl in *. by subst. }
  split; [|split; [|split; [|split; [|split]]]].
  - rewrite Hc'. split; [done|]. simpl.
    rewrite (bindActions_frame shadowRoot) by done.
    unfold c4. apply (fold_iff (fun c => is_Some (shadowRoot c))).
    + intros c0 e. rewrite bind_element_eq.
      destruct (bound_key _); [|done]. simpl. apply fmap_is_Some.
    + by rewrite Hs3.
  - rewrite Hc'. simpl. rewrite (bindActions_frame props) by done.
    unfold c4. by rewrite fold_bind_props.
  - rewrite Hc'. simpl. rewrite (bindActions_frame bindings) by done.
    unfold c4. by rewrite fold_bind_bindings, Hb3.
  - rewrite Hc'. unfold shadow_elements in *. simpl.
    by rewrite (bindActions_frame shadowRoot) by done.
  - intros Ha. destruct (ensureStyles_mirror c Hs Ha) as (added & Hm & Hin).
    exists added. split; [|done]. fold cS in Hm.
    destruct Hm as (Hnd & Hadd & Hsty).
    assert (stylesIsPath c' = stylesIsPath cS) as HiP.
    { rewrite Hc'. simpl. rewrite (bindActions_frame stylesIsPath) by done.
      unfold c4. rewrite (fold_frame stylesIsPath)
        by (intros; by apply bind_element_frame).
      unfold c3. by rewrite (append_markup_frame stylesIsPath) by done. }
    split; [done|]. split.
    + intros s. rewrite Hadd. rewrite Hc'. simpl.
      rewrite (bindActions_frame styleAdded) by done.
      unfold c4. rewrite (fold_frame styleAdded)
        by (intros; by apply bind_element_frame).
      unfold c3. by rewrite (append_markup_frame styleAdded) by done.
    + transitivity (shadow_styles cS).
      * rewrite Hc'. unfold shadow_styles at 1. simpl.
        rewrite (bindActions_frame shadowRoot) by done.
        change (shadow_styles c4 = shadow_styles cS).
        unfold c4. rewrite (fold_frame shadow_styles).
        -- unfold shadow_styles. rewrite Hs3, HsS.
           unfold style_nodes. by rewrite omap_app, style_nodes_NElem, app_nil_r.
        -- intros. apply bind_element_frame. intros.
           by rewrite shadow_styles_set_text.
      * rewrite Hsty. apply map_ext. intros s.
        unfold style_node_of. by rewrite HiP.
  - destruct (bindActions_log c4) as (evsA & HlA & HkA).
    exists (evsS ++ evsT ++ map created els
            ++ omap (fun e =>
                       (fun key => EvSetText (el_id e)
                                     (display (get (props c3) key)))
                         <$> bound_key (el_tag e)) els
            ++ evsA)%list.
    pose proof (bound_texts_are_texts (props c3) els) as HkB.
    split.
    + rewrite Hc'. simpl. rewrite HlA. unfold c4. rewrite fold_bind_log.
      unfold c3. rewrite (append_markup_log _ c2 nsS) by done.
      rewrite Hn2. fold els. unfold c2. simpl. rewrite HlS.
      by rewrite <- !app_assoc.
    + rewrite !materializations_app, !created_bound_app, !dispatched_app.
      rewrite HmT, HcrT, HdT, created_bound_created.
      destruct (other_events_read _ _ HkS) as (-> & -> & ->); [tauto|].
      destruct (other_events_read _ _ HkA) as (-> & -> & ->); [tauto|].
      destruct (other_events_read _ _ HkB) as (-> & -> & ->); [tauto|].
      assert (materializations (map created els) = 0) as ->.
      { unfold materializations. rewrite omap_none; [done|].
        apply Forall_forall. by intros ? (? & -> & _)%list_elem_of_fmap. }
      assert (dispatched (map created els) = []) as ->.
      { apply omap_none.
        apply Forall_forall. by intros ? (? & -> & _)%list_elem_of_fmap. }
      by rewrite !app_nil_r.
Qed.

(** *** The binding table *)

Lemma bindings_get_push key key' id (b : list (string * list nat)) :
  bindings_get key (bindings_push key' id b)
  = if String.eqb key' key
    then Some (default [] (bindings_get key b) ++ [id])%list
    else bindings_get key b.
Proof.
  induction b as [|[k0 ids] b IH]; simpl.
  - by destruct (String.eqb key' key).
  - destruct (String.eqb k0 key') eqn:E0; simpl.
    + apply String.eqb_eq in E0 as ->. by destruct (String.eqb key' key).
    + rewrite IH. destruct (String.eqb key' key) eqn:E1; [|done].
      apply String.eqb_eq in E1 as ->. by rewrite E0.
Qed.

Lemma bind_table_fold (es : list element) (b : list (string * list nat)) :
  fold_left
    (fun b e =>
       match bound_key (el_tag e) with
       | Some key => bindings_push key (el_id e) b
       | None => b
       end) es b
  = fold_left (fun b p => bindings_push (snd p) (fst p) b)
      (omap (fun e => (fun key => (el_id e, key)) <$> bound_key (el_tag e)) es)
      b.
Proof.
  revert b. induction es as [|e es IH]; intros b; [done|].
  simpl. rewrite IH. by destruct (bound_key _).
Qed.

Lemma fold_push_mono key id (ps : list (nat * string))
    (b : list (string * list nat)) :
  id ∈ default [] (bindings_get key b) ->
  id ∈ default []
         (bindings_get key
            (fold_left (fun b p => bindings_push (snd p) (fst p) b) ps b)).
Proof.
  revert b. induction ps as [|[i k0] ps IH]; intros b H; [done|].
  simpl. apply IH. rewrite bindings_get_push.
  destruct (String.eqb k0 key); [|done]. simpl. apply elem_of_app. by left.
Qed.

(** Every element that displays [key] is listed under [key]. *)
Lemma bind_table_in (es : list element) e key :
  e ∈ es -> bound_key (el_tag e) = Some key ->
  el_id e ∈ default [] (bindings_get key (bind_table es)).
Proof.
  unfold bind_table. rewrite bind_table_fold. generalize (@nil (string * list nat)).
  induction es as [|e0 es IH]; intros b Hin Hk.
  - by apply elem_of_nil in Hin.
  - apply elem_of_cons in Hin as [->|Hin]; simpl.
    + rewrite Hk. simpl. apply fold_push_mono. simpl.
      rewrite bindings_get_push, String.eqb_refl. simpl.
      apply elem_of_app. right. by left.
    + destruct (bound_key (el_tag e0)); simpl; by apply IH.
Qed.

(** *** Placeholders *)



(** *** The elements a fragment with known keys is parsed into *)







(** *** Assignments reach every bound element *)

Lemma set_texts_markers els text c :
  markers_recorded c -> markers_recorded (set_texts els text c).
Proof.
  intros H e' key He' Hk.
  apply set_texts_elements in He' as (e & He & Hid & Htag & _).
  rewrite set_texts_bindings, Hid. apply (H e key He). by rewrite <- Htag.
Qed.

Lemma render_first_markers document c t :
  shadowRoot c = Some [] -> templateFn c = Some t ->
  initialized c = false -> bindings c = [] ->
  markers_recorded (render document c).
Proof.
  intros Hs Ht Hi Hb.
  destruct (render_first document c t Hs Ht Hi Hb)
    as (_ & _ & Hb1 & He1 & _).
  intros e key He Hk. rewrite Hb1. rewrite He1 in He.
  apply list_elem_of_fmap in He as (x & -> & Hx). simpl in *.
  by apply bind_table_in.
Qed.

(** An assignment to a prop of a rendered component stores the value and
    assigns its string form to every element bound to the prop. *)
Lemma props_set_shows key v c :
  rendered c -> markers_recorded c -> is_empty key = false ->
  let c' := props_set key v c in
  rendered c' /\ markers_recorded c'
  /\ bindings c' = bindings c
  /\ props c' = <[key := v]> (props c)
  /\ log c'
     = (log c ++ map (fun id => EvSetText id (display v))
                   (default [] (bindings_get key (bindings c))))%list
  /\ forall e, e ∈ shadow_elements c' ->
       bound_key (el_tag e) = Some key -> el_text e = Some (display v).
Proof.
  intros Hr Hm Hk c'. unfold c'. rewrite props_set_rendered by done.
  set (c1 := with_props _ c).
  assert (rendered c1) as Hr1 by (destruct Hr; done).
  assert (markers_recorded c1) as Hm1 by done.
  split; [by apply set_texts_rendered|].
  split; [by apply set_texts_markers|].
  split; [by rewrite set_texts_bindings|].
  split; [by rewrite set_texts_props|].
  split; [by rewrite set_texts_log|].
  intros e' He' Hk'.
  apply set_texts_elements in He' as (e & He & Hid & Htag & Hin & _).
  apply Hin. apply (Hm1 e key He). by rewrite <- Htag.
Qed.


End ComponentFacts.


(** ** ExampleComponent *)

Section ExampleFacts.
Import Text JS Markup BaseComponent.

Lemma increment_rendered (c : component) (n : Num.number) :
  rendered c -> markers_recorded c ->
  get (props c) "count" = VNum n ->
  let v := VNum (Num.add n (Num.of_Z 1)) in
  let c' := ExampleComponent.increment c in
  rendered c' /\ markers_recorded c'
  /\ bindings c' = bindings c
  /\ get (props c') "count" = v
  /\ log c'
     = (log c
        ++ map (fun id => EvSetText id (display v))
             (default [] (bindings_get "count" (bindings c)))
        ++ [EvDispatch "incremented" v])%list
  /\ forall e, e ∈ shadow_elements c' ->
       bound_key (el_tag e) = Some "count" -> el_text e = Some (display v).
Proof.
  intros Hr Hm Hn v c'. unfold c', ExampleComponent.increment.
  rewrite Hn. change (plus (VNum n) (VNum (Num.of_Z 1))) with v.
  destruct (props_set_shows "count" v c Hr Hm eq_refl)
    as (Hr1 & Hm1 & Hb1 & Hp1 & Hl1 & Ht1).
  set (c1 := props_set "count" v c) in *.
  assert (get (props c1) "count" = v) as Hv
    by (unfold get; by rewrite Hp1, lookup_insert_eq).
  rewrite Hv. unfold emit.
  split; [done|]. split; [done|]. split; [done|]. split; [done|].
  split; [|done]. simpl. by rewrite Hl1, <- app_assoc.
Qed.

Lemma increment_unrendered (c : component) (n : Num.number) :
  initialized c = false ->
  get (props c) "count" = VNum n ->
  let v := VNum (Num.add n (Num.of_Z 1)) in
  ExampleComponent.increment c
  = emit "incremented" v (with_props (<["count" := v]> (props c)) c).
Proof.
  intros Hi Hn v. unfold ExampleComponent.increment.
  rewrite Hn. change (plus (VNum n) (VNum (Num.of_Z 1))) with v.
  rewrite props_set_unrendered by done. simpl.
  unfold get. by rewrite lookup_insert_eq.
Qed.

End ExampleFacts.

(** C8 (the example, end to end).  A new ExampleComponent holds count 0,
    label "Counter" and active false.  Whether it is attached to a page
    (and so rendered, whatever its template is) or not, three calls of
    [increment] leave count at 3; the events dispatched over the whole life
    of the component are exactly three "incremented" events with details
    1, 2 and 3; each is dispatched after the texts of the elements bound
    to count were assigned the new value; and in the end every element
    whose data-bind is count shows "3". *)
Theorem example_counts_to_three :
  forall (templateHtml baseStyles styles : string)
         (document : gmap string string) (attached : bool),
    let c0 := ExampleComponent.new templateHtml baseStyles styles in
    let c :=
      if attached then BaseComponent.connectedCallback document c0 else c0 in
    let c3 :=
      ExampleComponent.increment
        (ExampleComponent.increment (ExampleComponent.increment c)) in
    let counters :=
      default [] (BaseComponent.bindings_get "count" (BaseComponent.bindings c)) in
    let shown (text : string) :=
      map (fun id => BaseComponent.EvSetText id text) counters in
    let incremented (z : Z) :=
      BaseComponent.EvDispatch "incremented" (JS.VNum (Num.of_Z z)) in
    BaseComponent.props c0
    = <["active" := JS.VBool false]>
        (<["label" := JS.VStr "Counter"]>
           (<["count" := JS.VNum (Num.of_Z 0)]> ∅))
    /\ JS.get (BaseComponent.props c3) "count" = JS.VNum (Num.of_Z 3)
    /\ BaseComponent.dispatched (BaseComponent.log c3)
       = [("incremented", JS.VNum (Num.of_Z 1));
          ("incremented", JS.VNum (Num.of_Z 2));
          ("incremented", JS.VNum (Num.of_Z 3))]
    /\ BaseComponent.log c3
       = (BaseComponent.log c
          ++ shown "1" ++ [incremented 1%Z]
          ++ shown "2" ++ [incremented 2%Z]
          ++ shown "3" ++ [incremented 3%Z])%list
    /\ forall e,
         e ∈ BaseComponent.shadow_elements c3 ->
         BaseComponent.el_attr "data-bind" e = Some "count" ->
         BaseComponent.el_text e = Some "3".
Proof.
  intros templateHtml baseStyles styles document attached
         c0 c c3 counters shown incremented.
  split; [reflexivity|].
  assert (JS.get (BaseComponent.props c0) "count" = JS.VNum Num.zero) as H0
    by reflexivity.
  destruct attached.
  - (* attached: the template is rendered first *)
    destruct (render_first document c0
                (BaseComponent.TemplateFunction (fun _ => templateHtml))
                eq_refl eq_refl eq_refl eq_refl)
      as (Hr & Hp & _ & _ & _ & evs & Hl & _ & _ & Hd).
    pose proof (render_first_markers document c0 _
                  eq_refl eq_refl eq_refl eq_refl) as Hm.
    change (BaseComponent.render document c0) with c in Hr, Hp, Hl, Hm.
    assert (JS.get (BaseComponent.props c) "count" = JS.VNum Num.zero) as Hc
      by (by rewrite Hp).
    destruct (increment_rendered c _ Hr Hm Hc)
      as (Hr1 & Hm1 & Hb1 & Hv1 & Hl1 & _).
    destruct (increment_rendered _ _ Hr1 Hm1 Hv1)
      as (Hr2 & Hm2 & Hb2 & Hv2 & Hl2 & _).
    destruct (increment_rendered _ _ Hr2 Hm2 Hv2)
      as (_ & _ & _ & Hv3 & Hl3 & Ht3).
    fold c3 in Hv3, Hl3, Ht3.
    assert (BaseComponent.log c3
            = (BaseComponent.log c
               ++ shown "1" ++ [incremented 1%Z]
               ++ shown "2" ++ [incremented 2%Z]
               ++ shown "3" ++ [incremented 3%Z])%list) as Hlog.
    { rewrite Hl3, Hl2, Hl1, Hb2, Hb1. rewrite <- !app_assoc. reflexivity. }
    split; [exact Hv3|]. split; [|split; [exact Hlog|]].
    + rewrite Hlog, Hl. rewrite !dispatched_app, Hd.
      assert (forall s, BaseComponent.dispatched (shown s) = []) as Hsh.
      { intros s. apply omap_none, Forall_forall.
        by intros ? (? & -> & _)%list_elem_of_fmap. }
      by rewrite !Hsh.
    + intros e He Hk. apply Ht3; [done|].
      unfold BaseComponent.bound_key, BaseComponent.el_attr in *.
      by rewrite Hk.
  - (* not attached: nothing is displayed *)
    assert (BaseComponent.shadow_elements c3 = []) as Hnone by reflexivity.
    split; [vm_compute; reflexivity|]. split; [vm_compute; reflexivity|].
    split; [vm_compute; reflexivity|]. rewrite Hnone.
    intros e He. by apply elem_of_nil in He.
Qed.

(** ** Attribute changes and detaching *)

Section LifecycleFacts.
Import Text JS Markup BaseComponent.

Lemma update_all_frame {X} (f : component -> X) c :
  (forall id text c, f (set_text id text c) = f c) -> f (update_all c) = f c.
Proof.
  intros H. unfold update_all. apply fold_frame.
  intros c' entry. unfold update_entry. apply set_texts_frame. intros. apply H.
Qed.

Lemma updateBindings_frame {X} (f : component -> X) key c :
  (forall id text c, f (set_text id text c) = f c) ->
  f (updateBindings key c) = f c.
Proof.
  intros H. unfold updateBindings.
  destruct (shadowRoot c); [|done]. destruct (initialized c); [|done].
  simpl. destruct key as [k|]; [|by apply update_all_frame].
  destruct (is_empty k); [by apply update_all_frame|].
  apply set_texts_frame. intros. apply H.
Qed.

Lemma props_set_props key v c :
  props (props_set key v c) = <[key := v]> (props c).
Proof.
  unfold props_set. destruct (initialized _); [|done].
  by rewrite (updateBindings_frame props).
Qed.

Lemma attributeChanged_props name oldValue newValue c :
  oldValue <> newValue ->
  props (attributeChangedCallback name oldValue newValue c)
  = <[name := coerce (get (props c) name) newValue]> (props c).
Proof.
  intros H. unfold attributeChangedCallback.
  rewrite bool_decide_eq_true_2 by done.
  rewrite (updateBindings_frame props) by done. apply props_set_props.
Qed.

(** On a rendered component the callback assigns the text of the bound
    elements twice: once through the props proxy, once by its own call of
    [updateBindings]. *)
Lemma attributeChanged_rendered name oldValue newValue c :
  rendered c -> is_empty name = false -> oldValue <> newValue ->
  let v := coerce (get (props c) name) newValue in
  let ids := default [] (bindings_get name (bindings c)) in
  attributeChangedCallback name oldValue newValue c
  = set_texts ids (display v)
      (set_texts ids (display v) (with_props (<[name := v]> (props c)) c)).
Proof.
  intros Hr Hk H v ids. unfold attributeChangedCallback.
  rewrite bool_decide_eq_true_2 by done. fold v.
  rewrite props_set_rendered by done. fold ids.
  set (c1 := with_props _ c).
  assert (rendered c1) as Hr1 by (destruct Hr; done).
  rewrite updateBindings_rendered by (by try apply set_texts_rendered).
  rewrite set_texts_bindings, set_texts_props. simpl. fold ids.
  unfold get. by rewrite lookup_insert_eq.
Qed.

Lemma attributeChanged_shows name oldValue newValue c :
  rendered c -> is_empty name = false -> oldValue <> newValue ->
  let v := coerce (get (props c) name) newValue in
  let ids := default [] (bindings_get name (bindings c)) in
  let c' := attributeChangedCallback name oldValue newValue c in
  log c'
  = (log c ++ map (fun id => EvSetText id (display v)) ids
           ++ map (fun id => EvSetText id (display v)) ids)%list
  /\ forall e, e ∈ shadow_elements c' -> el_id e ∈ ids ->
       el_text e = Some (display v).
Proof.
  intros Hr Hk H v ids c'. unfold c'.
  rewrite attributeChanged_rendered by done. fold v ids. split.
  - rewrite !set_texts_log. simpl. by rewrite <- app_assoc.
  - intros e' He' Hin.
    apply set_texts_elements in He' as (e & _ & Hid & _ & Hset & _).
    apply Hset. by rewrite <- Hid.
Qed.


End LifecycleFacts.



(** C9 (a removed attribute of a number prop).  When the prop holds a
    number and its attribute is removed, the absent value goes through the
    numeric conversion, which gives 0 for it: the prop becomes the number
    0 whatever it held before, and on a rendered component every element
    bound to the prop then shows the text 0. *)
Theorem removed_attribute_sets_number_prop_to_zero :
  forall (c : BaseComponent.component) (name : string)
         (oldValue : option string) (n : Num.number),
    JS.get (BaseComponent.props c) name = JS.VNum n ->
    oldValue <> None ->
    let c' := BaseComponent.attributeChangedCallback name oldValue None c in
    let bound :=
      default []
        (BaseComponent.bindings_get name (BaseComponent.bindings c)) in
    JS.ToNumber (JS.of_attr None) = Num.zero
    /\ BaseComponent.props c'
       = <[name := JS.VNum Num.zero]> (BaseComponent.props c)
    /\ JS.get (BaseComponent.props c') name = JS.VNum Num.zero
    /\ JS.display (JS.VNum Num.zero) = "0"
    /\ (BaseComponent.rendered c -> Text.is_empty name = false ->
        BaseComponent.log c'
        = (BaseComponent.log c
           ++ map (fun id => BaseComponent.EvSetText id "0") bound
           ++ map (fun id => BaseComponent.EvSetText id "0") bound)%list
        /\ forall e,
             e ∈ BaseComponent.shadow_elements c' ->
             BaseComponent.el_id e ∈ bound ->
             BaseComponent.el_text e = Some "0").
Proof.
  intros c name oldValue n Hn Hold c' bound.
  assert (BaseComponent.coerce (JS.get (BaseComponent.props c) name) None
          = JS.VNum Num.zero) as Hv by (by rewrite Hn).
  assert (BaseComponent.props c'
          = <[name := JS.VNum Num.zero]> (BaseComponent.props c)) as Hp.
  { unfold c'. by rewrite attributeChanged_props, Hv. }
  split; [done|]. split; [done|].
  split; [unfold JS.get; by rewrite Hp, lookup_insert_eq|].
  split; [done|].
  intros Hr Hk.
  destruct (attributeChanged_shows name oldValue None c Hr Hk Hold)
    as [Hl Ht].
  rewrite Hv in Hl, Ht. done.
Qed.

Lemma removed_attribute_sets_number_prop_to_zero_witness :
  JS.get (BaseComponent.props Examples.counter_at_one) "count"
  = JS.VNum (Num.of_Z 1)
  /\ JS.get
       (BaseComponent.props
          (BaseComponent.attributeChangedCallback "count" (Some "1") None
             Examples.counter_at_one)) "count"
     = JS.VNum Num.zero
  /\ BaseComponent.texts_of 1
       (BaseComponent.log
          (BaseComponent.attributeChangedCallback "count" (Some "1") None
             Examples.counter_at_one))
     = ["0"; "1"; "0"; "0"].
Proof.
  assert (JS.get (BaseComponent.props Examples.counter_at_one) "count"
          = JS.VNum (Num.of_Z 1)) as Hn by (vm_compute; reflexivity).
  assert (Some "1" <> @None string) as Hold by discriminate.
  assert (BaseComponent.rendered Examples.counter_at_one) as Hr
    by (split; [vm_compute; reflexivity | vm_compute; eauto]).
  destruct (removed_attribute_sets_number_prop_to_zero
              Examples.counter_at_one "count" (Some "1") (Num.of_Z 1) Hn Hold)
    as (_ & _ & Hz & _ & Hshow).
  split; [exact Hn|]. split; [exact Hz|].
  destruct (Hshow Hr eq_refl) as [Hl _]. rewrite Hl.
  vm_compute. reflexivity.
Defined.



